(** * InteractiveShell: a pseudo-terminal shell session manager

    Shallow embedding of [src/InteractiveShell.cpp] / [InteractiveShell.h].

    The class keeps one session (child pid, master descriptor, running flag,
    output callback, terminal size, two worker threads).  Every member
    function is translated as an [action]: a function from the object's
    fields to the list of calls it issues (system calls, thread operations,
    callback invocations, stores to the shared running flag) in program
    order, together with the way the call ends.  The answers of the
    operating system during one call are read from an [Env] record.

    The second half of the file puts the caller, the reader thread and the
    signal-forwarding thread side by side in an interleaving machine built
    from the same pieces. *)

From Stdlib Require Import ZArith List String Ascii Bool Lia.
Import ListNotations.
Open Scope string_scope.
Open Scope list_scope.
Open Scope Z_scope.

(** ** Constants of the system headers (Linux values) *)

Module Sys.
Definition SIGHUP   : Z := 1.
Definition SIGINT   : Z := 2.
Definition SIGKILL  : Z := 9.
Definition SIGTERM  : Z := 15.
Definition SIGWINCH : Z := 28.

Definition EINTR       : Z := 4.
Definition EAGAIN      : Z := 11.
Definition EWOULDBLOCK : Z := 11.

Definition POLLIN   : Z := 1.
Definition POLLERR  : Z := 8.
Definition POLLHUP  : Z := 16.
Definition POLLNVAL : Z := 32.

Definition X_OK         : Z := 1.
Definition STDIN_FILENO : Z := 0.
End Sys.
Import Sys.

(** ** Strings *)

(** The character ['\n']. *)
Definition LF : ascii := "010"%char.

(** [s += c] on a [std::string]. *)
Definition push_back (s : string) (c : ascii) : string :=
  append s (String c EmptyString).

(** [s.empty()]. *)
Definition empty (s : string) : bool :=
  match s with
  | EmptyString => true
  | String _ _ => false
  end.

(** [s.back()], defined on non-empty strings only. *)
Fixpoint back (s : string) : option ascii :=
  match s with
  | EmptyString => None
  | String c EmptyString => Some c
  | String _ rest => back rest
  end.

(** [s.back() != c] where the source has made sure that [s] is not empty. *)
Definition back_differs (s : string) (c : ascii) : bool :=
  match back s with
  | Some d => negb (Ascii.eqb d c)
  | None => false
  end.

(** [std::string(buf.data(), n)]: the first [n] bytes of the buffer. *)
Definition string_of_buf (buf : string) (n : Z) : string :=
  substring 0 (Z.to_nat n) buf.

(** The literals handed to the callback. *)
Definition output_tag : string := "ISHELL_OUTPUT:".

Definition msg_forkpty_failed : string :=
  push_back "ISHELL_OUTPUT:[!] forkpty failed" LF.
Definition msg_started : string :=
  push_back "ISHELL_OUTPUT:[*] PTY shell started (bash/sh)" LF.
Definition msg_terminated : string :=
  push_back "ISHELL_OUTPUT:[*] Shell terminated" LF.
Definition msg_closed : string :=
  push_back "ISHELL_OUTPUT:[*] PTY closed" LF.

(** ** Integer conversions *)

(** [static_cast<unsigned short>(x)], and the implicit conversion of an
    [int] stored into a [ws_col] / [ws_row] field. *)
Definition to_ushort (x : Z) : Z := x mod 2 ^ 16.

(** ** The object *)

Inductive thread : Type := Reader | Forwarder.

(** The data members of [InteractiveShell].  [m_callback] records whether
    the [std::function] holds a target; a [std::thread] member is
    represented by its [joinable()] state; [s_active_instance] by whether
    it points to this object. *)
Record Session : Type := mkSession {
  m_callback       : bool;
  m_running        : bool;
  m_child_pid      : Z;
  m_master_fd      : Z;
  m_reader_thread  : bool;
  m_signal_thread  : bool;
  m_cols           : Z;
  m_rows           : Z;
  m_resize_pending : bool;
  s_active_instance : bool
}.

(** The default member initialisers of the header. *)
Definition fresh : Session :=
  {| m_callback := false; m_running := false;
     m_child_pid := -1; m_master_fd := -1;
     m_reader_thread := false; m_signal_thread := false;
     m_cols := 80; m_rows := 24;
     m_resize_pending := false; s_active_instance := false |}.

Definition set_callback (v : bool) (s : Session) : Session :=
  mkSession v (m_running s) (m_child_pid s) (m_master_fd s)
    (m_reader_thread s) (m_signal_thread s) (m_cols s) (m_rows s)
    (m_resize_pending s) (s_active_instance s).
Definition set_running (v : bool) (s : Session) : Session :=
  mkSession (m_callback s) v (m_child_pid s) (m_master_fd s)
    (m_reader_thread s) (m_signal_thread s) (m_cols s) (m_rows s)
    (m_resize_pending s) (s_active_instance s).
Definition set_child_pid (v : Z) (s : Session) : Session :=
  mkSession (m_callback s) (m_running s) v (m_master_fd s)
    (m_reader_thread s) (m_signal_thread s) (m_cols s) (m_rows s)
    (m_resize_pending s) (s_active_instance s).
Definition set_master_fd (v : Z) (s : Session) : Session :=
  mkSession (m_callback s) (m_running s) (m_child_pid s) v
    (m_reader_thread s) (m_signal_thread s) (m_cols s) (m_rows s)
    (m_resize_pending s) (s_active_instance s).
Definition set_thread (t : thread) (v : bool) (s : Session) : Session :=
  match t with
  | Reader =>
      mkSession (m_callback s) (m_running s) (m_child_pid s) (m_master_fd s)
        v (m_signal_thread s) (m_cols s) (m_rows s)
        (m_resize_pending s) (s_active_instance s)
  | Forwarder =>
      mkSession (m_callback s) (m_running s) (m_child_pid s) (m_master_fd s)
        (m_reader_thread s) v (m_cols s) (m_rows s)
        (m_resize_pending s) (s_active_instance s)
  end.
Definition set_cols (v : Z) (s : Session) : Session :=
  mkSession (m_callback s) (m_running s) (m_child_pid s) (m_master_fd s)
    (m_reader_thread s) (m_signal_thread s) v (m_rows s)
    (m_resize_pending s) (s_active_instance s).
Definition set_rows (v : Z) (s : Session) : Session :=
  mkSession (m_callback s) (m_running s) (m_child_pid s) (m_master_fd s)
    (m_reader_thread s) (m_signal_thread s) (m_cols s) v
    (m_resize_pending s) (s_active_instance s).
Definition set_resize_pending (v : bool) (s : Session) : Session :=
  mkSession (m_callback s) (m_running s) (m_child_pid s) (m_master_fd s)
    (m_reader_thread s) (m_signal_thread s) (m_cols s) (m_rows s)
    v (s_active_instance s).
Definition set_active_instance (v : bool) (s : Session) : Session :=
  mkSession (m_callback s) (m_running s) (m_child_pid s) (m_master_fd s)
    (m_reader_thread s) (m_signal_thread s) (m_cols s) (m_rows s)
    (m_resize_pending s) v.

Definition joinable (t : thread) (s : Session) : bool :=
  match t with
  | Reader => m_reader_thread s
  | Forwarder => m_signal_thread s
  end.

(** ** What a call does that the outside can see *)

Inductive event : Type :=
| Store_running (v : bool)                      (* m_running = v *)
| Tcgetattr (fd : Z)
| Cfmakeraw
| Forkpty (ws_col ws_row ws_xpixel ws_ypixel : Z)
| Access (path : string) (mode : Z)
| Execve (path : string) (argv envp : list string)
| Exit_ (status : Z)                            (* _exit(status) *)
| Fcntl_nonblock (fd : Z)                       (* fcntl(fd, F_SETFL, O_NONBLOCK) *)
| Spawn (t : thread)                            (* member = std::thread(...) *)
| Join (t : thread)                             (* member.join() *)
| Sigaction_winch                               (* sigaction(SIGWINCH, &sa, nullptr) *)
| Kill (pid sig : Z)
| Usleep (usec : Z)
| Waitpid (pid : Z)
| Close (fd : Z)
| Write_ (fd : Z) (data : string)               (* write(fd, data.data(), data.size()) *)
| Ioctl_winsz (fd ws_col ws_row : Z)            (* ioctl(fd, TIOCSWINSZ, &ws) *)
| Poll (fd timeout : Z)
| Read_ (fd size : Z)
| Sigmask_block (sigs : list Z)                 (* pthread_sigmask(SIG_BLOCK, ...) *)
| Sigwait (sigs : list Z)
| Sink (msg : string).                          (* m_callback(msg) *)

(** The answers of the operating system to the calls of one step.  A field
    is read only where the source reads the matching return value. *)
Record Env : Type := mkEnv {
  tcgetattr_ret  : Z;
  forkpty_ret    : Z;            (* < 0 failure, 0 in the child, pid in the parent *)
  forkpty_master : Z;            (* stored through [amaster] in the parent only *)
  access_ret     : Z;
  execve_fails   : bool;         (* execve comes back only when it fails *)
  environ        : list string;
  kill0_ret      : Z;            (* kill(pid, 0) *)
  write_ret      : Z;
  write_errno    : Z;
  poll_ret       : Z;
  poll_errno     : Z;
  poll_revents   : Z;
  read_ret       : Z;
  read_errno     : Z;
  read_buf       : string;       (* the buffer after read *)
  sigwait_ret    : Z;
  sigwait_sig    : Z
}.

(** How a call ends: it returns to its caller, or the process image is
    replaced ([execve]), or the process exits ([_exit]), or the C++ runtime
    calls [std::terminate] (assignment to a joinable [std::thread]). *)
Inductive outcome : Type :=
| Returns (s : Session)
| Execs (path : string) (argv envp : list string)
| Exits (status : Z)
| Terminates.

Definition action : Type := Session -> list event * outcome.

Definition skip : action := fun s => ([], Returns s).

Definition seq (a b : action) : action :=
  fun s =>
    match a s with
    | (t, Returns s') => let (t', o) := b s' in (t ++ t', o)
    | (t, o) => (t, o)
    end.

Declare Scope action_scope.
Delimit Scope action_scope with action.
Bind Scope action_scope with action.
Notation "a ;; b" := (seq a b) (at level 61, right associativity) : action_scope.
Open Scope action_scope.

(** A call whose arguments are read from the object. *)
Definition sys (ev : Session -> event) : action :=
  fun s => ([ev s], Returns s).

Definition modify (f : Session -> Session) : action :=
  fun s => ([], Returns (f s)).

Definition ifte (c : Session -> bool) (a b : action) : action :=
  fun s => if c s then a s else b s.

Definition when (c : Session -> bool) (a : action) : action :=
  ifte c a skip.

Definition store_running (v : bool) : action :=
  sys (fun _ => Store_running v) ;; modify (set_running v).

(** [if (m_callback) m_callback(msg);] *)
Definition notify (msg : string) : action :=
  when m_callback (sys (fun _ => Sink msg)).

Definition trace_of (r : list event * outcome) : list event := fst r.
Definition outcome_of (r : list event * outcome) : outcome := snd r.

(** The strings handed to the callback, in order. *)
Fixpoint sunk (t : list event) : list string :=
  match t with
  | [] => []
  | Sink m :: rest => m :: sunk rest
  | _ :: rest => sunk rest
  end.

(** ** StopShell (lines 92-125) *)

(** [m_running = false;] *)
Definition stop_clear : action := store_running false.

(** SIGTERM, grace interval, SIGKILL if needed, reap. *)
Definition stop_child (e : Env) : action :=
  when (fun s => 0 <? m_child_pid s)
    (sys (fun s => Kill (m_child_pid s) SIGTERM) ;;
     sys (fun _ => Usleep 200000) ;;
     sys (fun s => Kill (m_child_pid s) 0) ;;
     when (fun _ => kill0_ret e =? 0)
       (sys (fun s => Kill (m_child_pid s) SIGKILL)) ;;
     sys (fun s => Waitpid (m_child_pid s)) ;;
     modify (set_child_pid (-1))).

Definition stop_close : action :=
  when (fun s => 0 <=? m_master_fd s)
    (sys (fun s => Close (m_master_fd s)) ;;
     modify (set_master_fd (-1))).

(** [if (t.joinable()) t.join();] *)
Definition stop_join (t : thread) : action :=
  when (joinable t) (sys (fun _ => Join t) ;; modify (set_thread t false)).

Definition stop_finish : action :=
  modify (set_active_instance false) ;;
  notify msg_terminated.

Definition StopShell (e : Env) : action :=
  ifte (fun s => negb (m_running s)) skip
    (stop_clear ;;
     stop_child e ;;
     stop_close ;;
     stop_join Reader ;;
     stop_join Forwarder ;;
     stop_finish).

(** ** WriteToShell (lines 127-139) *)

(** The bytes handed to [write]. *)
Definition terminated (command : string) : string :=
  let data := command in
  if negb (empty data) && back_differs data LF
  then push_back data LF
  else data.

Definition write_fatal (e : Env) : bool :=
  (write_ret e <? 0) && negb (write_errno e =? EAGAIN)
                     && negb (write_errno e =? EWOULDBLOCK).

(** Up to and including the [write] call. *)
Definition write_send (command : string) : action :=
  sys (fun s => Write_ (m_master_fd s) (terminated command)).

Definition WriteToShell (e : Env) (command : string) : action :=
  ifte (fun s => negb (m_running s) || (m_master_fd s <? 0)) skip
    (write_send command ;;
     when (fun _ => write_fatal e) (StopShell e)).

(** ** IsShellRunning (lines 141-143); the probe is made only when the two
    first conjuncts hold. *)
Definition IsShellRunning (e : Env) (s : Session) : list event * bool :=
  if m_running s && (0 <? m_child_pid s)
  then ([Kill (m_child_pid s) 0], kill0_ret e =? 0)
  else ([], false).

(** ** NotifyResize (lines 220-236) *)
Definition NotifyResize (cols rows : Z) : action :=
  ifte (fun s => negb (m_running s) || (m_master_fd s <? 0)) skip
    (modify (set_cols cols) ;;
     modify (set_rows rows) ;;
     sys (fun s => Ioctl_winsz (m_master_fd s) (to_ushort cols) (to_ushort rows)) ;;
     when (fun s => 0 <? m_child_pid s)
       (sys (fun s => Kill (m_child_pid s) SIGWINCH))).

(** ** SigwinchHandler (lines 213-217) *)
Definition SigwinchHandler : action :=
  when s_active_instance (modify (set_resize_pending true)).

(** ** StartShell (lines 20-90) *)

(** [m_callback = std::move(callback); m_running = true;] *)
Definition start_enter (callback : bool) : action :=
  modify (set_callback callback) ;;
  store_running true.

(** [m_child_pid = forkpty(&m_master_fd, nullptr, &term, &ws);] with
    [term] taken from the terminal or made raw, and [ws] from the stored
    size. *)
Definition start_forkpty (e : Env) : action :=
  sys (fun _ => Tcgetattr STDIN_FILENO) ;;
  when (fun _ => tcgetattr_ret e <? 0) (sys (fun _ => Cfmakeraw)) ;;
  sys (fun s => Forkpty (to_ushort (m_cols s)) (to_ushort (m_rows s)) 0 0) ;;
  modify (fun s =>
            set_child_pid (forkpty_ret e)
              (if 0 <? forkpty_ret e
               then set_master_fd (forkpty_master e) s
               else s)).

(** Lines 43-47. *)
Definition start_failed : action :=
  store_running false ;;
  notify msg_forkpty_failed.

(** [execve(path, argv, envp)]: on success the call does not come back. *)
Definition execve (e : Env) (path : string) (argv envp : list string) : action :=
  fun s =>
    ([Execve path argv envp],
     if execve_fails e then Returns s else Execs path argv envp).

(** [_exit(status)]. *)
Definition exit_ (status : Z) : action :=
  fun _ => ([Exit_ status], Exits status).

(** The shell the child picks (lines 54-57). *)
Definition shell_path (e : Env) : string :=
  let shell := "/bin/bash" in
  if negb (access_ret e =? 0) then "/bin/sh" else shell.

(** Lines 49-66, the child after the fork. *)
Definition start_child (e : Env) : action :=
  sys (fun _ => Access "/bin/bash" X_OK) ;;
  execve e (shell_path e) [shell_path e] (environ e) ;;
  exit_ 127.

(** [member = std::thread(...)]: the temporary thread is constructed, and
    so started, first; its move assignment to a member that is still
    joinable then calls [std::terminate]. *)
Definition spawn (t : thread) : action :=
  fun s =>
    ([Spawn t],
     if joinable t s then Terminates else Returns (set_thread t true s)).

(** Lines 68-89, the parent after the fork. *)
Definition start_parent : action :=
  modify (set_active_instance true) ;;
  sys (fun s => Fcntl_nonblock (m_master_fd s)) ;;
  spawn Reader ;;
  spawn Forwarder ;;
  sys (fun _ => Sigaction_winch) ;;
  notify msg_started.

(** Everything after [m_running = true]. *)
Definition start_rest (e : Env) : action :=
  start_forkpty e ;;
  ifte (fun s => m_child_pid s <? 0) start_failed
    (ifte (fun s => m_child_pid s =? 0) (start_child e) start_parent).

Definition StartShell (e : Env) (callback : bool) : action :=
  ifte m_running skip
    (start_enter callback ;; start_rest e).

(** The destructor: [StopShell()], then the members are destroyed; a
    [std::thread] destroyed while joinable calls [std::terminate]. *)
Definition destroy (e : Env) : action :=
  StopShell e ;;
  (fun s =>
     if m_reader_thread s || m_signal_thread s then ([], Terminates)
     else ([], Returns s)).

(** ** ReaderThreadFunc (lines 148-188), one step at a time *)

Inductive reader_pc : Type :=
| R_init      (* lines 149-153: buffer and pollfd set up *)
| R_loop      (* line 155: the loop test *)
| R_poll      (* lines 156-167: poll and the tests on its result *)
| R_read      (* lines 168-179: read and forward *)
| R_exit      (* line 184 *)
| R_notify    (* lines 185-187 *)
| R_done.     (* the thread function has returned *)

(** The locals of the thread function that outlive one step. *)
Record reader_state : Type := mkReader {
  r_pc   : reader_pc;
  pfd_fd : Z
}.

Definition poll_failed_bits : Z := Z.lor POLLERR (Z.lor POLLHUP POLLNVAL).

(** Where the loop goes after [poll] has returned. *)
Definition after_poll (e : Env) : reader_pc :=
  if poll_ret e <? 0 then
    if poll_errno e =? EINTR then R_loop else R_exit
  else if poll_ret e =? 0 then R_loop
  else if negb (Z.land (poll_revents e) poll_failed_bits =? 0) then R_exit
  else if negb (Z.land (poll_revents e) POLLIN =? 0) then R_read
  else R_loop.

(** Lines 169-174: whether a non-positive [read] result ends the loop. *)
Definition read_ends (e : Env) : bool :=
  (read_ret e =? 0)
  || ((read_ret e <? 0) && negb (read_errno e =? EAGAIN)
                        && negb (read_errno e =? EWOULDBLOCK)).

(** Lines 176-179. *)
Definition forward_chunk (e : Env) : action :=
  notify (append output_tag (string_of_buf (read_buf e) (read_ret e))).

Definition reader_step (e : Env) (r : reader_state) (s : Session)
  : option (reader_state * action) :=
  match r_pc r with
  | R_init => Some (mkReader R_loop (m_master_fd s), skip)
  | R_loop =>
      Some (mkReader (if m_running s then R_poll else R_exit) (pfd_fd r), skip)
  | R_poll =>
      Some (mkReader (after_poll e) (pfd_fd r),
            sys (fun _ => Poll (pfd_fd r) 150))
  | R_read =>
      if read_ret e <=? 0
      then Some (mkReader (if read_ends e then R_exit else R_loop) (pfd_fd r),
                 sys (fun s => Read_ (m_master_fd s) 4096))
      else Some (mkReader R_loop (pfd_fd r),
                 sys (fun s => Read_ (m_master_fd s) 4096) ;; forward_chunk e)
  | R_exit => Some (mkReader R_notify (pfd_fd r), store_running false)
  | R_notify => Some (mkReader R_done (pfd_fd r), notify msg_closed)
  | R_done => None
  end.

(** ** SignalForwardThreadFunc (lines 193-210), one step at a time *)

Inductive forwarder_pc : Type :=
| F_init               (* lines 194-200 *)
| F_loop               (* line 202: the loop test *)
| F_wait               (* lines 203-204: inside sigwait *)
| F_test (sig : Z)     (* line 205: sigwait returned 0 and delivered sig *)
| F_kill (sig : Z)     (* line 206: the test of line 205 has passed *)
| F_done.

Definition forwarded_signals : list Z := [SIGINT; SIGTERM; SIGHUP].

(** [m_child_pid] is loaded once for the test of line 205 and once more for
    the call of line 206; another context may store to it in between. *)
Definition forwarder_step (e : Env) (f : forwarder_pc) (s : Session)
  : option (forwarder_pc * action) :=
  match f with
  | F_init => Some (F_loop, sys (fun _ => Sigmask_block forwarded_signals))
  | F_loop => Some (if m_running s then F_wait else F_done, skip)
  | F_wait =>
      Some (if sigwait_ret e =? 0 then F_test (sigwait_sig e) else F_loop,
            sys (fun _ => Sigwait forwarded_signals))
  | F_test sig => Some (if 0 <? m_child_pid s then F_kill sig else F_loop, skip)
  | F_kill sig => Some (F_loop, sys (fun s => Kill (m_child_pid s) sig))
  | F_done => None
  end.

(** ** The three contexts side by side *)

Inductive context : Type := Caller | Worker (t : thread) | Handler.

(** Where the calling thread stands inside the member functions. *)
Inductive main_pc : Type :=
| M_idle                  (* between calls *)
| M_start                 (* StartShell, after line 24 *)
| M_stop_entry            (* StopShell called from WriteToShell, line 137 *)
| M_stop_child            (* StopShell, after line 95 *)
| M_stop_close            (* StopShell, after line 106 *)
| M_stop_join_reader      (* StopShell, after line 111 *)
| M_stop_join_forwarder   (* StopShell, after line 115 *)
| M_stop_finish.          (* StopShell, after line 118 *)

Record Global : Type := mkGlobal {
  sess      : Session;
  main      : main_pc;
  reader    : reader_state;
  forwarder : forwarder_pc
}.

(** A constructed object, no call made yet, no worker thread. *)
Definition boot : Global :=
  mkGlobal fresh M_idle (mkReader R_done (-1)) F_done.

Inductive call : Type :=
| C_start (callback : bool)
| C_stop
| C_write (command : string)
| C_resize (cols rows : Z).

Inductive label : Type :=
| L_call (c : call)   (* the caller enters a member function *)
| L_main              (* the caller goes on inside the function it is in *)
| L_reader
| L_forwarder
| L_sigwinch.         (* SIGWINCH is delivered *)

Definition stamped : Type := list (context * event).

(** The step goes on in this process only when the piece of code returns. *)
Definition commit (who : context) (r : list event * outcome)
    (k : Session -> Global) : option (stamped * Global) :=
  match r with
  | (t, Returns s) => Some (map (pair who) t, k s)
  | _ => None
  end.

(** Lines 93-95. *)
Definition stop_enter (g : Global) : option (stamped * Global) :=
  if negb (m_running (sess g))
  then Some ([], mkGlobal (sess g) M_idle (reader g) (forwarder g))
  else commit Caller (stop_clear (sess g))
         (fun s => mkGlobal s M_stop_child (reader g) (forwarder g)).

Definition call_step (e : Env) (c : call) (g : Global)
  : option (stamped * Global) :=
  match main g with
  | M_idle =>
      match c with
      | C_start callback =>
          if m_running (sess g) then Some ([], g)
          else commit Caller (start_enter callback (sess g))
                 (fun s => mkGlobal s M_start (reader g) (forwarder g))
      | C_stop => stop_enter g
      | C_write command =>
          if negb (m_running (sess g)) || (m_master_fd (sess g) <? 0)
          then Some ([], g)
          else commit Caller (write_send command (sess g))
                 (fun s => mkGlobal s
                             (if write_fatal e then M_stop_entry else M_idle)
                             (reader g) (forwarder g))
      | C_resize cols rows =>
          commit Caller (NotifyResize cols rows (sess g))
            (fun s => mkGlobal s M_idle (reader g) (forwarder g))
      end
  | _ => None
  end.

(** [join()] comes back once the thread function has returned. *)
Definition main_step (e : Env) (g : Global) : option (stamped * Global) :=
  match main g with
  | M_idle => None
  | M_start =>
      commit Caller (start_rest e (sess g))
        (fun s =>
           if 0 <? forkpty_ret e
           then mkGlobal s M_idle (mkReader R_init (pfd_fd (reader g))) F_init
           else mkGlobal s M_idle (reader g) (forwarder g))
  | M_stop_entry => stop_enter g
  | M_stop_child =>
      commit Caller (stop_child e (sess g))
        (fun s => mkGlobal s M_stop_close (reader g) (forwarder g))
  | M_stop_close =>
      commit Caller (stop_close (sess g))
        (fun s => mkGlobal s M_stop_join_reader (reader g) (forwarder g))
  | M_stop_join_reader =>
      match m_reader_thread (sess g), r_pc (reader g) with
      | true, R_done | false, _ =>
          commit Caller (stop_join Reader (sess g))
            (fun s => mkGlobal s M_stop_join_forwarder (reader g) (forwarder g))
      | true, _ => None
      end
  | M_stop_join_forwarder =>
      match m_signal_thread (sess g), forwarder g with
      | true, F_done | false, _ =>
          commit Caller (stop_join Forwarder (sess g))
            (fun s => mkGlobal s M_stop_finish (reader g) (forwarder g))
      | true, _ => None
      end
  | M_stop_finish =>
      commit Caller (stop_finish (sess g))
        (fun s => mkGlobal s M_idle (reader g) (forwarder g))
  end.

Definition step (l : label) (e : Env) (g : Global)
  : option (stamped * Global) :=
  match l with
  | L_call c => call_step e c g
  | L_main => main_step e g
  | L_reader =>
      match reader_step e (reader g) (sess g) with
      | Some (r, a) =>
          commit (Worker Reader) (a (sess g))
            (fun s => mkGlobal s (main g) r (forwarder g))
      | None => None
      end
  | L_forwarder =>
      match forwarder_step e (forwarder g) (sess g) with
      | Some (f, a) =>
          commit (Worker Forwarder) (a (sess g))
            (fun s => mkGlobal s (main g) (reader g) f)
      | None => None
      end
  | L_sigwinch =>
      commit Handler (SigwinchHandler (sess g))
        (fun s => mkGlobal s (main g) (reader g) (forwarder g))
  end.

(** A schedule names, step by step, who moves and what the system answers. *)
Definition schedule : Type := list (label * Env).

Fixpoint run (sch : schedule) (g : Global) : option (stamped * Global) :=
  match sch with
  | [] => Some ([], g)
  | (l, e) :: rest =>
      match step l e g with
      | Some (t, g') =>
          match run rest g' with
          | Some (t', g'') => Some (t ++ t', g'')
          | None => None
          end
      | None => None
      end
  end.

(** What [forkpty] promises: in the parent the descriptor it stores is a
    valid one. *)
Definition sane (e : Env) : Prop :=
  0 < forkpty_ret e -> 0 <= forkpty_master e.

Definition reachable (g : Global) : Prop :=
  exists sch t, Forall (fun le => sane (snd le)) sch /\ run sch boot = Some (t, g).

(** * Vocabulary of the statements *)

(** ** Sample data for the concrete runs *)

(** A system in which every call succeeds: [forkpty] returns pid 100 and
    descriptor 5. *)
Definition env_ok : Env :=
  mkEnv 0 100 5 0 false ["PATH=/usr/bin:/bin"] 0 3 0 0 0 0 0 0 EmptyString 0 0.

(** The object as a successful [StartShell] leaves it. *)
Definition session_up : Session :=
  mkSession true true 100 5 true true 80 24 false true.

(** [write] answers [ret] and [errno]. *)
Definition env_write (ret errno : Z) : Env :=
  mkEnv 0 100 5 0 false [] 0 ret errno 0 0 0 0 0 EmptyString 0 0.

(** [write] fails with the given [errno]. *)
Definition env_write_error (errno : Z) : Env := env_write (-1) errno.

(** [forkpty] returns [ret]; the probe for bash answers [acc]; [execve]
    fails or not. *)
Definition env_fork (ret acc : Z) (fails : bool) : Env :=
  mkEnv 0 ret 5 acc fails ["PATH=/usr/bin:/bin"] 0 0 0 0 0 0 0 0 EmptyString 0 0.

(** [poll] answers [ret], [errno] and [revents]. *)
Definition env_poll (ret errno revents : Z) : Env :=
  mkEnv 0 100 5 0 false [] 0 0 0 ret errno revents 0 0 EmptyString 0 0.

(** [read] answers [ret] and [errno] and leaves [buf] in the buffer. *)
Definition env_read (ret errno : Z) (buf : string) : Env :=
  mkEnv 0 100 5 0 false [] 0 0 0 0 0 0 ret errno buf 0 0.

(** A successful start, after which the reader thread sets itself up and
    passes its loop test. *)
Definition sch_reader_in_loop : schedule :=
  [(L_call (C_start true), env_ok); (L_main, env_ok);
   (L_reader, env_ok); (L_reader, env_ok)].

(** ... then the caller enters [StopShell], clears the flag and terminates
    the child, while the reader is about to call [poll]. *)
Definition sch_stop_before_close : schedule :=
  sch_reader_in_loop ++ [(L_call C_stop, env_ok); (L_main, env_ok)].

(** ... or the pseudo-terminal hangs up and the reader leaves its loop and
    reports it. *)
Definition sch_hangup : schedule :=
  sch_reader_in_loop ++
  [(L_reader, env_poll 1 0 POLLHUP); (L_reader, env_ok); (L_reader, env_ok)].

(** ... or the child prints the very text of the closing notice. *)
Definition sch_child_prints : schedule :=
  sch_reader_in_loop ++
  [(L_reader, env_poll 1 0 POLLIN);
   (L_reader, env_read 15 0 (push_back "[*] PTY closed" LF))].

(** The errno of a write to a pseudo-terminal whose other side is gone. *)
Definition EIO : Z := 5.

(** ... or the pseudo-terminal hangs up, the caller's [write] fails with
    EIO, and the reader stores the cleared flag (line 184) after the
    caller's [write] (line 135) and before the caller's [StopShell] tests
    the flag (line 93). *)
Definition sch_write_races_reader : schedule :=
  sch_reader_in_loop ++
  [(L_reader, env_poll 1 0 POLLHUP);
   (L_call (C_write "ls"), env_write_error EIO);
   (L_reader, env_ok);
   (L_main, env_ok)].

(** The machine after [sch_write_races_reader]. *)
Definition g_write_raced : Global :=
  mkGlobal (set_running false session_up) M_idle (mkReader R_notify 5) F_init.

(** The caller goes through [StartShell], resp. [StopShell], on its own. *)
Definition sch_start (e : Env) (callback : bool) : schedule :=
  [(L_call (C_start callback), e); (L_main, e)].

Definition sch_stop (e : Env) : schedule :=
  [(L_call C_stop, e); (L_main, e); (L_main, e); (L_main, e); (L_main, e);
   (L_main, e)].

Definition by_caller (t : list event) : stamped := map (pair Caller) t.

(** The machine after [sch_reader_in_loop]. *)
Definition g_reader_in_loop : Global :=
  mkGlobal session_up M_idle (mkReader R_poll 5) F_init.

(** The machine after [sch_stop_before_close]. *)
Definition g_before_close : Global :=
  mkGlobal (mkSession true false (-1) 5 true true 80 24 false true)
    M_stop_close (mkReader R_poll 5) F_init.

(** ... and after the caller's next step, [close(5)]. *)
Definition g_after_close : Global :=
  mkGlobal (mkSession true false (-1) (-1) true true 80 24 false true)
    M_stop_join_reader (mkReader R_poll 5) F_init.

(** The machine after [sch_hangup]: the reader has returned, nobody has
    called [StopShell]. *)
Definition g_reader_left : Global :=
  mkGlobal (set_running false session_up) M_idle (mkReader R_done 5) F_init.

(** The strings handed to the callback during a run of the machine, with
    the context that handed them. *)
Fixpoint delivered (t : stamped) : list (context * string) :=
  match t with
  | [] => []
  | (who, Sink m) :: rest => (who, m) :: delivered rest
  | _ :: rest => delivered rest
  end.

(** What the callback receives along a schedule started on a new object. *)
Definition deliveries (sch : schedule) : option (list (context * string)) :=
  match run sch boot with
  | Some (t, _) => Some (delivered t)
  | None => None
  end.

(** ** Closed forms of the traces *)

(** The calls [StopShell] issues on an object whose running flag is set. *)
Definition stop_calls (e : Env) (s : Session) : list event :=
  [Store_running false] ++
  (if 0 <? m_child_pid s
   then [Kill (m_child_pid s) SIGTERM; Usleep 200000; Kill (m_child_pid s) 0]
        ++ (if kill0_ret e =? 0 then [Kill (m_child_pid s) SIGKILL] else [])
        ++ [Waitpid (m_child_pid s)]
   else []) ++
  (if 0 <=? m_master_fd s then [Close (m_master_fd s)] else []) ++
  (if m_reader_thread s then [Join Reader] else []) ++
  (if m_signal_thread s then [Join Forwarder] else []) ++
  (if m_callback s then [Sink msg_terminated] else []).

(** The fields [StopShell] leaves behind. *)
Definition stopped (s : Session) : Session :=
  mkSession (m_callback s) false
    (if 0 <? m_child_pid s then -1 else m_child_pid s)
    (if 0 <=? m_master_fd s then -1 else m_master_fd s)
    false false (m_cols s) (m_rows s) (m_resize_pending s) false.

(** The calls of [StartShell] that precede the test of [forkpty]'s result. *)
Definition start_prologue (e : Env) (s : Session) : list event :=
  [Store_running true; Tcgetattr STDIN_FILENO] ++
  (if tcgetattr_ret e <? 0 then [Cfmakeraw] else []) ++
  [Forkpty (to_ushort (m_cols s)) (to_ushort (m_rows s)) 0 0].

(** ** Invariant of the machine *)

Definition in_stop (m : main_pc) : bool :=
  match m with
  | M_stop_child | M_stop_close | M_stop_join_reader
  | M_stop_join_forwarder | M_stop_finish => true
  | _ => false
  end.

Definition past_close (m : main_pc) : bool :=
  match m with
  | M_stop_join_reader | M_stop_join_forwarder | M_stop_finish => true
  | _ => false
  end.

Record invariant (g : Global) : Prop := mkInvariant {
  inv_valid :
    main g <> M_start -> m_running (sess g) = true ->
    0 < m_child_pid (sess g) /\ 0 <= m_master_fd (sess g);
  inv_stop : in_stop (main g) = true -> m_running (sess g) = false;
  inv_closed : past_close (main g) = true -> m_master_fd (sess g) < 0
}.

(** What a worker thread or the signal handler may do to the fields the
    invariant speaks of: nothing, except clearing the running flag. *)
Definition calms (s s' : Session) : Prop :=
  m_child_pid s' = m_child_pid s /\
  m_master_fd s' = m_master_fd s /\
  (m_running s' = true -> m_running s = true).

(** ** Proof steps shared by the case analyses *)

Ltac open_action :=
  unfold trace_of, outcome_of, StopShell, WriteToShell, NotifyResize,
    StartShell, start_rest, start_enter, start_forkpty, start_failed,
    start_child, start_parent, stop_clear, stop_child, stop_close, stop_join,
    stop_finish, write_send, execve, exit_, spawn, notify, store_running,
    when, ifte, seq, sys, modify, skip.

Ltac open_setters :=
  unfold set_running, set_child_pid, set_master_fd, set_thread,
    set_active_instance, set_callback, set_cols, set_rows,
    set_resize_pending in *.

Ltac open_step :=
  unfold step, call_step, main_step, stop_enter, commit, reader_step,
    forwarder_step, forward_chunk, SigwinchHandler in *.

(** Case analysis on every test a hypothesis still branches on. *)
Ltac split_ifs H :=
  repeat match type of H with
         | context [if ?c then _ else _] =>
             lazymatch c with
             | context [if _ then _ else _] => fail
             | _ => destruct c eqn:?; simpl in H
             end
         | context [match ?c with _ => _ end] =>
             is_var c; destruct c; simpl in H
         end.

(** Walks through a membership hypothesis over an explicit list. *)
Ltac hunt H :=
  simpl in H;
  repeat match type of H with
         | _ \/ _ => destruct H as [H | H]
         | False => contradiction
         | (_, _) = (_, _) => try discriminate H
         end.

(** One step of the machine, unfolded into its cases. *)
Ltac step_cases Hstep :=
  open_step; revert Hstep; open_action; open_setters; simpl;
  intros Hstep; split_ifs Hstep; try discriminate;
  injection Hstep as <- <-.

(** * The rest of the code *)

(** ** main.cpp *)

(** The output callback of [main] (lines 23-30): the text it puts on
    standard output for one string received. *)
Definition console_callback (output : string) : string :=
  if prefix "ISHELL_OUTPUT:" output
  then substring 14 (String.length output - 14) output
  else push_back output LF.

(** The branch the input loop takes for a line it has read (the tests of
    lines 42, 46 and 50, in this order). *)
Inductive console_step : Type :=
| Console_break
| Console_resize (cols rows : Z)
| Console_write (line : string).

Definition console_dispatch (line : string) : console_step :=
  if empty line then Console_break
  else if String.eqb line "exit" || String.eqb line "quit" then Console_break
  else if String.eqb line "resize 120 40" then Console_resize 120 40
  else Console_write line.

(** What the input loop does on the standard streams and on the shell
    object. *)
Inductive console_event : Type :=
| Prints (text : string)          (* std::cout << text *)
| Reads (line : option string)    (* std::getline(std::cin, line), None when it fails *)
| Calls (ev : event).             (* a call made inside a member function *)

Definition prompt_text : string := "shell> ".

(** The text of line 52; its multiplication sign is the two bytes 195, 151. *)
Definition resize_text : string :=
  append "[i] Sent resize 120"
    (String "195"%char (String "151"%char (push_back "40" LF))).

Record pass_result : Type := mkPass {
  pass_events    : list console_event;
  pass_continues : bool;            (* the loop test is evaluated again *)
  pass_outcome   : outcome
}.

(** One pass of the input loop of [main] (lines 36-57), from its loop test
    [g_running && shell.IsShellRunning()] to the end of its body.
    [g_running] is the value the test loads, [probe] answers the
    [kill(pid, 0)] of [IsShellRunning], [input] is what [getline] would
    return, and [e] answers the calls of the body. *)
Definition console_pass (g_running : bool) (probe : Env)
    (input : option string) (e : Env) (s : Session) : pass_result :=
  if negb g_running then mkPass [] false (Returns s)
  else
    let (t0, alive) := IsShellRunning probe s in
    if negb alive then mkPass (map Calls t0) false (Returns s)
    else
      let head := map Calls t0 ++ [Prints prompt_text; Reads input] in
      match input with
      | None => mkPass head false (Returns s)
      | Some line =>
          match console_dispatch line with
          | Console_break => mkPass head false (Returns s)
          | Console_resize cols rows =>
              let (t, o) := NotifyResize cols rows s in
              mkPass (head ++ map Calls t ++ [Prints resize_text]) true o
          | Console_write l =>
              let (t, o) := WriteToShell e l s in
              mkPass (head ++ map Calls t) true o
          end
      end.

(** ** Runs of one worker thread *)

(** The reader thread takes one step per answer, until it has returned. *)
Fixpoint reader_steps (es : list Env) (g : Global) : stamped * Global :=
  match es with
  | [] => ([], g)
  | e :: rest =>
      match step L_reader e g with
      | Some (t, g') =>
          let (t', g'') := reader_steps rest g' in (t ++ t', g'')
      | None => ([], g)
      end
  end.

(** ** Vocabulary of the further statements *)

Definition map_outcome (f : Session -> Session) (o : outcome) : outcome :=
  match o with
  | Returns s => Returns (f s)
  | _ => o
  end.

(** The machine with [m_resize_pending] overwritten. *)
Definition pend (b : bool) (g : Global) : Global :=
  mkGlobal (set_resize_pending b (sess g)) (main g) (reader g) (forwarder g).

Definition reader_live (pc : reader_pc) : bool :=
  match pc with
  | R_notify | R_done => false
  | _ => true
  end.

Definition past_child (m : main_pc) : bool :=
  match m with
  | M_stop_close | M_stop_join_reader | M_stop_join_forwarder
  | M_stop_finish => true
  | _ => false
  end.

Definition past_join_reader (m : main_pc) : bool :=
  match m with
  | M_stop_join_forwarder | M_stop_finish => true
  | _ => false
  end.

(** What the machine keeps about the worker threads and their handles. *)
Record threads_invariant (g : Global) : Prop := mkThreadsInvariant {
  ti_reader_handle :
    m_reader_thread (sess g) = false -> r_pc (reader g) = R_done;
  ti_forwarder_handle :
    m_signal_thread (sess g) = false -> forwarder g = F_done;
  ti_reader_joined :
    past_join_reader (main g) = true -> m_reader_thread (sess g) = false;
  ti_forwarder_joined :
    main g = M_stop_finish -> m_signal_thread (sess g) = false;
  ti_child_reaped :
    past_child (main g) = true -> m_child_pid (sess g) <= 0;
  ti_running :
    main g <> M_start -> m_running (sess g) = true ->
    m_reader_thread (sess g) = true /\ m_signal_thread (sess g) = true /\
    reader_live (r_pc (reader g)) = true /\ forwarder g <> F_done
}.

(** [sigwait] answers [ret] and delivers [sig]. *)
Definition env_sigwait (ret sig : Z) : Env :=
  mkEnv 0 100 5 0 false [] 0 0 0 0 0 0 0 0 EmptyString ret sig.

(** A poll answer with data and hang-up at once. *)
Definition env_poll_in_hup : Env := env_poll 1 0 (Z.lor POLLIN POLLHUP).

(** After a successful start both workers reach their waiting points; the
    caller then goes through [StopShell] as far as it can without them, the
    reader notices the cleared flag and returns, and the caller joins it. *)
Definition sch_stop_waits_for_forwarder : schedule :=
  [(L_call (C_start true), env_ok); (L_main, env_ok);
   (L_reader, env_ok); (L_reader, env_ok);
   (L_forwarder, env_ok); (L_forwarder, env_ok);
   (L_call C_stop, env_ok); (L_main, env_ok); (L_main, env_ok);
   (L_reader, env_poll 0 0 0); (L_reader, env_ok); (L_reader, env_ok);
   (L_reader, env_ok); (L_main, env_ok)].

Definition g_stop_waits_for_forwarder : Global :=
  mkGlobal (mkSession true false (-1) (-1) false true 80 24 false true)
    M_stop_join_forwarder (mkReader R_done 5) F_wait.

(** ... then a signal arrives, the forwarder returns and is joined. *)
Definition sch_stop_before_finish : schedule :=
  sch_stop_waits_for_forwarder ++
  [(L_forwarder, env_sigwait 0 SIGINT); (L_forwarder, env_ok);
   (L_forwarder, env_ok); (L_main, env_ok)].

Definition g_stop_before_finish : Global :=
  mkGlobal (mkSession true false (-1) (-1) false false 80 24 false true)
    M_stop_finish (mkReader R_done 5) F_done.

(** How many steps the reader needs at most to return once the running
    flag is clear. *)
Definition reader_rank (pc : reader_pc) : nat :=
  match pc with
  | R_done => 0
  | R_notify => 1
  | R_exit => 2
  | R_loop => 3
  | R_init => 4
  | R_read => 4
  | R_poll => 5
  end.

(** After a successful start the reader and the forwarder reach their
    loops; SIGINT arrives and the forwarder finds the stored pid positive;
    the caller then enters [StopShell], clears the flag and terminates and
    reaps the child. *)
Definition sch_forwarder_late : schedule :=
  [(L_call (C_start true), env_ok); (L_main, env_ok);
   (L_reader, env_ok); (L_reader, env_ok);
   (L_forwarder, env_ok); (L_forwarder, env_ok);
   (L_forwarder, env_sigwait 0 SIGINT); (L_forwarder, env_ok);
   (L_call C_stop, env_ok); (L_main, env_ok)].

Definition g_forwarder_late : Global :=
  mkGlobal (mkSession true false (-1) 5 true true 80 24 false true)
    M_stop_close (mkReader R_poll 5) (F_kill SIGINT).

(** No return of [sigwait] among the events. *)
Definition no_sigwait (t : stamped) : Prop :=
  forall sigs, ~ In (Worker Forwarder, Sigwait sigs) t.

(** The calls that release what a session holds: closing a descriptor,
    reaping a child, joining a thread. *)
Definition releases (ev : event) : bool :=
  match ev with
  | Close _ | Waitpid _ | Join _ => true
  | _ => false
  end.

(** The state the reader leaves behind when it ends on its own and nobody
    has joined it: the flag is clear, the reader handle is still joinable,
    and the caller is between calls or in a [StartShell]. *)
Definition abandoned (g : Global) : Prop :=
  m_reader_thread (sess g) = true /\
  (main g = M_start \/ main g = M_idle /\ m_running (sess g) = false).

(** The number of [write] calls in a trace. *)
Fixpoint writes (t : list event) : nat :=
  match t with
  | [] => 0
  | Write_ _ _ :: rest => S (writes rest)
  | _ :: rest => writes rest
  end.

(** Case analysis on every test the goal still branches on. *)
Ltac split_goal_ifs :=
  repeat match goal with
         | |- context [if ?c then _ else _] =>
             lazymatch c with
             | context [if _ then _ else _] => fail
             | _ => destruct c eqn:?; simpl
             end
         | |- context [match ?c with _ => _ end] =>
             is_var c; destruct c; simpl
         end.


(** The number of steps the reader thread takes in a schedule. *)
Fixpoint reader_moves (sch : schedule) : nat :=
  match sch with
  | [] => 0
  | (L_reader, _) :: rest => S (reader_moves rest)
  | _ :: rest => reader_moves rest
  end.

(** No call of [StartShell] in a schedule. *)
Fixpoint no_start (sch : schedule) : bool :=
  match sch with
  | [] => true
  | (L_call (C_start _), _) :: _ => false
  | _ :: rest => no_start rest
  end.

(** * Properties of the member functions *)

Example StartShell_success :
  StartShell env_ok true fresh =
    ([Store_running true; Tcgetattr 0; Forkpty 80 24 0 0; Fcntl_nonblock 5;
      Spawn Reader; Spawn Forwarder; Sigaction_winch; Sink msg_started],
     Returns session_up).
Proof. reflexivity. Qed.

Example StartShell_again_after_reader_left :
  StartShell env_ok true (set_running false session_up) =
    ([Store_running true; Tcgetattr 0; Forkpty 80 24 0 0; Fcntl_nonblock 5;
      Spawn Reader],
     Terminates).
Proof. reflexivity. Qed.

Lemma back_push_back (s : string) (c : ascii) : back (push_back s c) = Some c.
Proof.
  unfold push_back.
  induction s as [|a s IH]; simpl; [reflexivity|].
  rewrite IH. destruct s; reflexivity.
Qed.

Lemma to_ushort_id (x : Z) : 0 <= x <= 65535 -> to_ushort x = x.
Proof. intros H. unfold to_ushort. apply Z.mod_small. lia. Qed.

Lemma to_ushort_range (x : Z) : 0 <= to_ushort x <= 65535.
Proof.
  unfold to_ushort.
  pose proof (Z.mod_pos_bound x (2 ^ 16) ltac:(lia)). lia.
Qed.

Lemma StopShell_running (e : Env) (s : Session) :
  m_running s = true ->
  StopShell e s = (stop_calls e s, Returns (stopped s)).
Proof.
  intros Hrun. destruct s as [cb run pid fd rt st c r rp ai].
  simpl in Hrun. subst run.
  unfold stop_calls, stopped. open_action.
  destruct (0 <? pid), (kill0_ret e =? 0), (0 <=? fd), rt, st, cb;
    unfold set_running, set_child_pid, set_master_fd, set_thread,
      set_active_instance; simpl;
    repeat match goal with
           | |- context [0 <? ?x] => destruct (0 <? x); simpl
           | |- context [0 <=? ?x] => destruct (0 <=? x); simpl
           end; try reflexivity.
Qed.

Lemma StopShell_not_running (e : Env) (s : Session) :
  m_running s = false -> StopShell e s = ([], Returns s).
Proof. intros H. unfold StopShell, ifte, skip. rewrite H. reflexivity. Qed.

Lemma StopShell_returns (e : Env) (s : Session) :
  exists t s', StopShell e s = (t, Returns s') /\ m_running s' = false.
Proof.
  destruct (m_running s) eqn:Hrun.
  - exists (stop_calls e s), (stopped s). split.
    + now apply StopShell_running.
    + reflexivity.
  - exists [], s. split; [now apply StopShell_not_running | assumption].
Qed.

(** C2.  [StopShell] on an object whose running flag is set issues its
    calls in this order: the running flag is cleared; if a child exists
    ([m_child_pid > 0]) it is sent SIGTERM, the caller sleeps 200000
    microseconds, probes the child with signal 0, sends SIGKILL only when the
    probe finds the child, and reaps it with [waitpid]; then the master
    descriptor is closed; then the reader thread and the signal-forwarding
    thread are joined; then the termination notice goes to the callback.
    (Each of the last steps is guarded in the source by the validity of the
    descriptor, the joinability of the thread and the presence of a
    callback.) *)
Theorem StopShell_order (e : Env) (s : Session) :
  m_running s = true ->
  trace_of (StopShell e s) =
    [Store_running false] ++
    (if 0 <? m_child_pid s
     then [Kill (m_child_pid s) SIGTERM; Usleep 200000; Kill (m_child_pid s) 0]
          ++ (if kill0_ret e =? 0 then [Kill (m_child_pid s) SIGKILL] else [])
          ++ [Waitpid (m_child_pid s)]
     else []) ++
    (if 0 <=? m_master_fd s then [Close (m_master_fd s)] else []) ++
    (if m_reader_thread s then [Join Reader] else []) ++
    (if m_signal_thread s then [Join Forwarder] else []) ++
    (if m_callback s then [Sink msg_terminated] else []).
Proof.
  intros Hrun. rewrite (StopShell_running e s Hrun). reflexivity.
Qed.

Lemma StopShell_order_witness :
  trace_of (StopShell env_ok session_up) =
    [Store_running false; Kill 100 SIGTERM; Usleep 200000; Kill 100 0;
     Kill 100 SIGKILL; Waitpid 100; Close 5; Join Reader; Join Forwarder;
     Sink msg_terminated].
Proof. exact (StopShell_order env_ok session_up eq_refl). Defined.

(** ** WriteToShell *)

Lemma terminated_spec (command : string) :
  (command = EmptyString -> terminated command = EmptyString) /\
  (command <> EmptyString -> back command <> Some LF ->
   terminated command = push_back command LF) /\
  (back command = Some LF -> terminated command = command).
Proof.
  unfold terminated, back_differs. repeat split.
  - intros ->. reflexivity.
  - intros Hne Hback. destruct command as [|a rest]; [congruence|].
    cbn [empty negb andb].
    destruct (back (String a rest)) as [d|] eqn:Hb.
    + destruct (Ascii.eqb d LF) eqn:Hd; [|reflexivity].
      apply Ascii.eqb_eq in Hd. congruence.
    + exfalso. clear Hne Hback. revert a Hb.
      induction rest as [|b rest IH]; intros a Hb; simpl in Hb; [discriminate|].
      exact (IH b Hb).
  - intros Hback. rewrite Hback, Ascii.eqb_refl.
    destruct command; reflexivity.
Qed.

Lemma WriteToShell_running (e : Env) (command : string) (s : Session) :
  m_running s = true -> 0 <= m_master_fd s ->
  WriteToShell e command s =
    if write_fatal e
    then (Write_ (m_master_fd s) (terminated command) :: trace_of (StopShell e s),
          outcome_of (StopShell e s))
    else ([Write_ (m_master_fd s) (terminated command)], Returns s).
Proof.
  intros Hrun Hfd.
  unfold WriteToShell, write_send, when, ifte, seq, sys, skip,
    trace_of, outcome_of.
  rewrite Hrun. apply Z.ltb_ge in Hfd. rewrite Hfd.
  cbn [negb orb app].
  destruct (write_fatal e); [|reflexivity].
  destruct (StopShell e s) as [t o]. reflexivity.
Qed.

(** C1, as the code has it.  On an object that is running with a valid
    descriptor, [WriteToShell] hands to [write] exactly: the command followed
    by one ['\n'] when the command is not empty and does not end with
    ['\n']; the command itself when it ends with ['\n']; and the empty string
    (no terminator, a zero-length write) when the command is empty. *)
Theorem WriteToShell_terminator (e : Env) (command : string) (s : Session) :
  m_running s = true -> 0 <= m_master_fd s ->
  exists data rest o,
    WriteToShell e command s = (Write_ (m_master_fd s) data :: rest, o) /\
    (command <> EmptyString -> back command <> Some LF ->
     data = push_back command LF) /\
    (back command = Some LF -> data = command) /\
    (command = EmptyString -> data = EmptyString).
Proof.
  intros Hrun Hfd.
  destruct (terminated_spec command) as (Hempty & Hadd & Hkeep).
  rewrite (WriteToShell_running e command s Hrun Hfd).
  destruct (write_fatal e).
  - exists (terminated command), (trace_of (StopShell e s)),
      (outcome_of (StopShell e s)). auto.
  - exists (terminated command), [], (Returns s). auto.
Qed.

Lemma WriteToShell_terminator_witness :
  exists data rest o,
    WriteToShell env_ok "ls" session_up = (Write_ 5 data :: rest, o) /\
    ("ls" <> EmptyString -> back "ls" <> Some LF -> data = push_back "ls" LF) /\
    (back "ls" = Some LF -> data = "ls") /\
    ("ls" = EmptyString -> data = EmptyString).
Proof.
  apply (WriteToShell_terminator env_ok "ls" session_up); [reflexivity | simpl; lia].
Defined.

(** C1 as stated fails at the empty string: it does not end with ['\n'],
    yet what is written is the empty string and not a lone ['\n']. *)
Lemma WriteToShell_empty_command :
  back EmptyString <> Some LF /\
  WriteToShell (env_write 0 0) EmptyString session_up
    = ([Write_ 5 EmptyString], Returns session_up) /\
  EmptyString <> push_back EmptyString LF.
Proof. repeat split; discriminate || reflexivity. Qed.

(** [WriteToShell] with no other context moving during the call: when
    [write] fails with an [errno] other than EAGAIN and EWOULDBLOCK the call
    goes on with the whole of [StopShell] and the object ends not running;
    when [write] fails with EAGAIN or EWOULDBLOCK nothing follows the
    [write] and the object is left as it was, running. *)
Theorem WriteToShell_write_failure (e : Env) (command : string) (s : Session) :
  m_running s = true -> 0 <= m_master_fd s -> write_ret e < 0 ->
  (write_errno e <> EAGAIN -> write_errno e <> EWOULDBLOCK ->
   exists s',
     WriteToShell e command s =
       (Write_ (m_master_fd s) (terminated command) :: trace_of (StopShell e s),
        Returns s') /\
     StopShell e s = (stop_calls e s, Returns s') /\
     m_running s' = false) /\
  (write_errno e = EAGAIN \/ write_errno e = EWOULDBLOCK ->
   WriteToShell e command s =
     ([Write_ (m_master_fd s) (terminated command)], Returns s)).
Proof.
  intros Hrun Hfd Hn.
  rewrite (WriteToShell_running e command s Hrun Hfd).
  unfold write_fatal. apply Z.ltb_lt in Hn. rewrite Hn. split.
  - intros H1 H2. apply Z.eqb_neq in H1, H2. rewrite H1, H2. simpl.
    exists (stopped s). rewrite (StopShell_running e s Hrun).
    repeat split.
  - intros [H | H]; apply Z.eqb_eq in H; rewrite H; simpl;
      [reflexivity | now rewrite andb_false_r].
Qed.

Lemma WriteToShell_write_failure_witness :
  (exists s',
     WriteToShell (env_write_error 5) "ls" session_up =
       (Write_ 5 (terminated "ls")
          :: trace_of (StopShell (env_write_error 5) session_up),
        Returns s') /\
     StopShell (env_write_error 5) session_up
       = (stop_calls (env_write_error 5) session_up, Returns s') /\
     m_running s' = false) /\
  WriteToShell (env_write_error EAGAIN) "ls" session_up =
    ([Write_ 5 (terminated "ls")], Returns session_up).
Proof.
  assert (Hfd : 0 <= m_master_fd session_up) by (simpl; lia).
  assert (Hneg : forall errno, write_ret (env_write_error errno) < 0)
    by (intros; simpl; lia).
  split.
  - apply (proj1 (WriteToShell_write_failure (env_write_error 5) "ls"
                    session_up eq_refl Hfd (Hneg 5)));
      simpl; unfold EAGAIN, EWOULDBLOCK; lia.
  - apply (proj2 (WriteToShell_write_failure (env_write_error EAGAIN) "ls"
                    session_up eq_refl Hfd (Hneg EAGAIN))).
    left. reflexivity.
Defined.

(** C7 as stated fails when the reader moves during the call.  The
    pseudo-terminal hangs up; the caller's [write] fails with EIO and
    [WriteToShell] calls [StopShell]; the reader clears the flag in between;
    [StopShell] returns at its entry test.  No signal is sent, nothing is
    closed, reaped or joined, and pid 100, descriptor 5 and both thread
    handles are left as they were. *)
Lemma fatal_write_without_stop_sequence :
  write_fatal (env_write_error EIO) = true /\
  run sch_write_races_reader boot =
    Some ([(Caller, Store_running true); (Caller, Tcgetattr 0);
           (Caller, Forkpty 80 24 0 0); (Caller, Fcntl_nonblock 5);
           (Caller, Spawn Reader); (Caller, Spawn Forwarder);
           (Caller, Sigaction_winch); (Caller, Sink msg_started);
           (Worker Reader, Poll 5 150);
           (Caller, Write_ 5 (push_back "ls" LF));
           (Worker Reader, Store_running false)],
          g_write_raced) /\
  m_child_pid (sess g_write_raced) = 100 /\
  m_master_fd (sess g_write_raced) = 5 /\
  m_reader_thread (sess g_write_raced) = true /\
  m_signal_thread (sess g_write_raced) = true.
Proof.
  split; [reflexivity|]. split; [vm_compute; reflexivity|].
  repeat split.
Qed.

(** C7, as the code has it.  On a running session with a valid descriptor
    and the caller between calls: when [write] fails with an [errno] other
    than EAGAIN and EWOULDBLOCK, [WriteToShell] makes the one [write] and
    calls [StopShell].  [StopShell] then applies its own entry test: if the
    flag is still set it clears it and goes on with its sequence - the whole
    of it, leaving the flag clear, when no other context moves during the
    call; if the reader has cleared the flag in between it returns at once.
    When [write] fails with EAGAIN or EWOULDBLOCK, [StopShell] is not called
    and the session is left as it was, running. *)
Theorem WriteToShell_fatal_write (e : Env) (command : string) (g : Global) :
  main g = M_idle -> m_running (sess g) = true -> 0 <= m_master_fd (sess g) ->
  write_ret e < 0 ->
  (write_errno e <> EAGAIN -> write_errno e <> EWOULDBLOCK ->
   step (L_call (C_write command)) e g =
     Some ([(Caller, Write_ (m_master_fd (sess g)) (terminated command))],
           mkGlobal (sess g) M_stop_entry (reader g) (forwarder g)) /\
   (forall e' g1, main g1 = M_stop_entry ->
      (m_running (sess g1) = true ->
       step L_main e' g1 =
         Some ([(Caller, Store_running false)],
               mkGlobal (set_running false (sess g1)) M_stop_child
                 (reader g1) (forwarder g1))) /\
      (m_running (sess g1) = false ->
       step L_main e' g1 =
         Some ([], mkGlobal (sess g1) M_idle (reader g1) (forwarder g1)))) /\
   WriteToShell e command (sess g) =
     (Write_ (m_master_fd (sess g)) (terminated command)
        :: stop_calls e (sess g),
      Returns (stopped (sess g))) /\
   m_running (stopped (sess g)) = false) /\
  (write_errno e = EAGAIN \/ write_errno e = EWOULDBLOCK ->
   step (L_call (C_write command)) e g =
     Some ([(Caller, Write_ (m_master_fd (sess g)) (terminated command))],
           mkGlobal (sess g) M_idle (reader g) (forwarder g)) /\
   WriteToShell e command (sess g) =
     ([Write_ (m_master_fd (sess g)) (terminated command)], Returns (sess g))).
Proof.
  intros Hm Hrun Hfd Hn.
  assert (Hcall : step (L_call (C_write command)) e g =
            Some ([(Caller, Write_ (m_master_fd (sess g)) (terminated command))],
                  mkGlobal (sess g)
                    (if write_fatal e then M_stop_entry else M_idle)
                    (reader g) (forwarder g))).
  { destruct g as [s mp r f]. simpl in Hm, Hrun, Hfd. subst mp.
    unfold step, call_step, commit, write_send, sys. cbn [main sess].
    rewrite Hrun. apply Z.ltb_ge in Hfd. rewrite Hfd. reflexivity. }
  rewrite Hcall, (WriteToShell_running e command (sess g) Hrun Hfd).
  unfold write_fatal. apply Z.ltb_lt in Hn. rewrite Hn. split.
  - intros H1 H2. apply Z.eqb_neq in H1, H2. rewrite H1, H2. simpl.
    split; [reflexivity|]. split.
    + intros e' [s1 m1 r1 f1] Hm1. simpl in Hm1. subst m1.
      split; intros Hrun1; cbn [sess] in Hrun1;
        unfold step, main_step, stop_enter; cbn [main sess reader forwarder];
        rewrite Hrun1; reflexivity.
    + rewrite (StopShell_running e (sess g) Hrun). split; reflexivity.
  - intros [H | H]; apply Z.eqb_eq in H; rewrite H; simpl;
      rewrite ?andb_false_r; split; reflexivity.
Qed.

Lemma WriteToShell_fatal_write_witness :
  step (L_call (C_write "ls")) (env_write_error EIO) g_reader_in_loop =
    Some ([(Caller, Write_ 5 (terminated "ls"))],
          mkGlobal session_up M_stop_entry (mkReader R_poll 5) F_init) /\
  WriteToShell (env_write_error EIO) "ls" session_up =
    (Write_ 5 (terminated "ls") :: stop_calls (env_write_error EIO) session_up,
     Returns (stopped session_up)) /\
  step (L_call (C_write "ls")) (env_write_error EAGAIN) g_reader_in_loop =
    Some ([(Caller, Write_ 5 (terminated "ls"))], g_reader_in_loop) /\
  WriteToShell (env_write_error EAGAIN) "ls" session_up =
    ([Write_ 5 (terminated "ls")], Returns session_up).
Proof.
  assert (Hfd : 0 <= m_master_fd (sess g_reader_in_loop)) by (simpl; lia).
  assert (Hneg : forall errno, write_ret (env_write_error errno) < 0)
    by (intros; simpl; lia).
  destruct (WriteToShell_fatal_write (env_write_error EIO) "ls"
              g_reader_in_loop eq_refl eq_refl Hfd (Hneg EIO))
    as [Hfatal _].
  destruct (WriteToShell_fatal_write (env_write_error EAGAIN) "ls"
              g_reader_in_loop eq_refl eq_refl Hfd (Hneg EAGAIN))
    as [_ Hblock].
  destruct Hfatal as (Hcall & _ & Hseq & _);
    [simpl; unfold EIO, EAGAIN; lia | simpl; unfold EIO, EWOULDBLOCK; lia|].
  destruct Hblock as (Hcall' & Hseq'); [left; reflexivity|].
  repeat split; assumption.
Defined.

(** ** Calls on an object that is not running *)

(** C6.  On an object whose running flag is clear (in particular one on
    which no call was made yet, and one that [StopShell] has left),
    [WriteToShell], [NotifyResize] and [StopShell] return without issuing any
    call and leave every field as it was; a [StopShell] that follows a
    [StopShell] does nothing. *)
Theorem not_running_no_effect (e : Env) (command : string) (cols rows : Z)
    (s : Session) :
  m_running s = false ->
  WriteToShell e command s = ([], Returns s) /\
  NotifyResize cols rows s = ([], Returns s) /\
  StopShell e s = ([], Returns s) /\
  m_running fresh = false /\
  (forall e1 e2 s0, exists t s1,
      StopShell e1 s0 = (t, Returns s1) /\
      m_running s1 = false /\
      StopShell e2 s1 = ([], Returns s1)).
Proof.
  intros Hrun. repeat split.
  - unfold WriteToShell, ifte, skip. rewrite Hrun. reflexivity.
  - unfold NotifyResize, ifte, skip. rewrite Hrun. reflexivity.
  - now apply StopShell_not_running.
  - intros e1 e2 s0.
    destruct (StopShell_returns e1 s0) as (t & s1 & Hstop & Hs1).
    exists t, s1. repeat split; [assumption | assumption |].
    now apply StopShell_not_running.
Qed.

Lemma not_running_no_effect_witness :
  WriteToShell env_ok "ls" fresh = ([], Returns fresh) /\
  NotifyResize 120 40 fresh = ([], Returns fresh) /\
  StopShell env_ok fresh = ([], Returns fresh) /\
  m_running fresh = false /\
  (forall e1 e2 s0, exists t s1,
      StopShell e1 s0 = (t, Returns s1) /\
      m_running s1 = false /\
      StopShell e2 s1 = ([], Returns s1)).
Proof. exact (not_running_no_effect env_ok "ls" 120 40 fresh eq_refl). Defined.

(** ** StartShell *)

Lemma StartShell_failed (e : Env) (callback : bool) (s : Session) :
  m_running s = false -> forkpty_ret e < 0 ->
  StartShell e callback s =
    (start_prologue e s ++ [Store_running false] ++
       (if callback then [Sink msg_forkpty_failed] else []),
     Returns (set_child_pid (forkpty_ret e) (set_callback callback s))).
Proof.
  intros Hrun Hret. destruct s as [cb run pid fd rt st c r rp ai].
  simpl in Hrun. subst run.
  assert (H0 : (0 <? forkpty_ret e) = false) by (apply Z.ltb_ge; lia).
  apply Z.ltb_lt in Hret.
  unfold start_prologue. open_action.
  unfold set_running, set_child_pid, set_master_fd, set_callback. simpl.
  destruct (tcgetattr_ret e <? 0); simpl; rewrite H0; simpl; rewrite Hret;
    simpl; destruct callback; reflexivity.
Qed.

Lemma StartShell_child (e : Env) (callback : bool) (s : Session) :
  m_running s = false -> forkpty_ret e = 0 ->
  StartShell e callback s =
    (start_prologue e s ++
       [Access "/bin/bash" X_OK;
        Execve (shell_path e) [shell_path e] (environ e)] ++
       (if execve_fails e then [Exit_ 127] else []),
     if execve_fails e then Exits 127
     else Execs (shell_path e) [shell_path e] (environ e)).
Proof.
  intros Hrun Hret. destruct s as [cb run pid fd rt st c r rp ai].
  simpl in Hrun. subst run.
  unfold start_prologue. open_action.
  unfold set_running, set_child_pid, set_master_fd, set_callback. simpl.
  rewrite Hret.
  destruct (tcgetattr_ret e <? 0); simpl; destruct (execve_fails e); reflexivity.
Qed.

(** C8.  When [forkpty] fails (returns a negative value) in a [StartShell]
    that got past its entry test, the call returns with the running flag
    clear, no thread has been started (no [std::thread] is created and both
    thread members are as they were), and the callback, when the caller
    supplied one, receives exactly the failure notice. *)
Theorem StartShell_forkpty_failure (e : Env) (callback : bool) (s : Session) :
  m_running s = false -> forkpty_ret e < 0 ->
  exists t s',
    StartShell e callback s = (t, Returns s') /\
    m_running s' = false /\
    (forall w, ~ In (Spawn w) t) /\
    m_reader_thread s' = m_reader_thread s /\
    m_signal_thread s' = m_signal_thread s /\
    sunk t = (if callback then [msg_forkpty_failed] else []) /\
    (callback = true -> In (Sink msg_forkpty_failed) t).
Proof.
  intros Hrun Hret.
  rewrite (StartShell_failed e callback s Hrun Hret).
  eexists _, _. split; [reflexivity|].
  unfold start_prologue.
  repeat split.
  - simpl. assumption.
  - intros w Hin.
    destruct (tcgetattr_ret e <? 0), callback; simpl in Hin;
      repeat (destruct Hin as [Hin | Hin]; [discriminate|]); exact Hin.
  - destruct (tcgetattr_ret e <? 0), callback; reflexivity.
  - intros ->. destruct (tcgetattr_ret e <? 0); simpl; auto 10.
Qed.

Lemma StartShell_forkpty_failure_witness :
  exists t s',
    StartShell (env_fork (-1) 0 false) true fresh = (t, Returns s') /\
    m_running s' = false /\
    (forall w, ~ In (Spawn w) t) /\
    m_reader_thread s' = false /\
    m_signal_thread s' = false /\
    sunk t = [msg_forkpty_failed] /\
    In (Sink msg_forkpty_failed) t.
Proof.
  destruct (StartShell_forkpty_failure (env_fork (-1) 0 false) true fresh
              eq_refl ltac:(simpl; lia))
    as (t & s' & Hcall & Hrun & Hspawn & Hr & Hf & Hsunk & Hin).
  exists t, s'. repeat split; try assumption.
  exact (Hin eq_refl).
Defined.

(** C9.  In the child ([forkpty] returned 0) [StartShell] probes
    [/bin/bash] with [access(.., X_OK)], takes [/bin/bash] when the probe
    answers 0 and [/bin/sh] otherwise (without probing it), and calls
    [execve] on that path with an argument vector holding the path alone and
    with the environment of the process as it is.  If [execve] comes back
    the child calls [_exit(127)]; no thread is started in the child. *)
Theorem StartShell_child_branch (e : Env) (callback : bool) (s : Session) :
  m_running s = false -> forkpty_ret e = 0 ->
  let shell := if access_ret e =? 0 then "/bin/bash" else "/bin/sh" in
  exists before,
    StartShell e callback s =
      (before ++
         [Access "/bin/bash" X_OK; Execve shell [shell] (environ e)] ++
         (if execve_fails e then [Exit_ 127] else []),
       if execve_fails e then Exits 127
       else Execs shell [shell] (environ e)) /\
    (forall p m, ~ In (Access p m) before) /\
    (forall p a v, ~ In (Execve p a v) before) /\
    (forall w, ~ In (Spawn w) before).
Proof.
  intros Hrun Hret shell.
  assert (Hshell : shell_path e = shell).
  { unfold shell_path, shell. destruct (access_ret e =? 0); reflexivity. }
  exists (start_prologue e s).
  rewrite (StartShell_child e callback s Hrun Hret), Hshell.
  split; [reflexivity|].
  unfold start_prologue.
  repeat split; intros; intro Hin;
    destruct (tcgetattr_ret e <? 0); simpl in Hin;
    repeat (destruct Hin as [Hin | Hin]; [discriminate|]); exact Hin.
Qed.

Lemma StartShell_child_branch_witness :
  exists before,
    StartShell (env_fork 0 (-1) true) true fresh =
      (before ++
         [Access "/bin/bash" X_OK;
          Execve "/bin/sh" ["/bin/sh"] ["PATH=/usr/bin:/bin"]; Exit_ 127],
       Exits 127) /\
    (forall p m, ~ In (Access p m) before) /\
    (forall p a v, ~ In (Execve p a v) before) /\
    (forall w, ~ In (Spawn w) before).
Proof.
  exact (StartShell_child_branch (env_fork 0 (-1) true) true fresh
           eq_refl eq_refl).
Defined.

(** ** NotifyResize *)

(** C10.  On a running object with a valid descriptor [NotifyResize cols
    rows] stores [cols] and [rows] unchanged in [m_cols] and [m_rows], and
    the window size it passes to [ioctl(TIOCSWINSZ)] holds [cols mod 2^16]
    and [rows mod 2^16]; when both arguments lie in [0, 65535] the window
    size holds the arguments themselves. *)
Theorem NotifyResize_window_size (cols rows : Z) (s : Session) :
  m_running s = true -> 0 <= m_master_fd s ->
  exists rest s',
    NotifyResize cols rows s =
      (Ioctl_winsz (m_master_fd s) (cols mod 2 ^ 16) (rows mod 2 ^ 16) :: rest,
       Returns s') /\
    m_cols s' = cols /\ m_rows s' = rows /\
    (0 <= cols <= 65535 -> 0 <= rows <= 65535 ->
     NotifyResize cols rows s =
       (Ioctl_winsz (m_master_fd s) cols rows :: rest, Returns s')).
Proof.
  intros Hrun Hfd. destruct s as [cb run pid fd rt st c r rp ai].
  simpl in Hrun, Hfd. subst run. apply Z.ltb_ge in Hfd.
  unfold NotifyResize, when, ifte, seq, sys, modify, skip,
    set_cols, set_rows. simpl. rewrite Hfd. simpl.
  fold (to_ushort cols). fold (to_ushort rows).
  destruct (0 <? pid); simpl; eexists _, _;
    (split; [reflexivity|]); repeat split;
    intros Hc Hr; rewrite (to_ushort_id cols Hc), (to_ushort_id rows Hr);
    reflexivity.
Qed.

Lemma NotifyResize_window_size_witness :
  exists rest s',
    NotifyResize 120 40 session_up =
      (Ioctl_winsz 5 (120 mod 2 ^ 16) (40 mod 2 ^ 16) :: rest, Returns s') /\
    m_cols s' = 120 /\ m_rows s' = 40 /\
    NotifyResize 120 40 session_up =
      (Ioctl_winsz 5 120 40 :: rest, Returns s').
Proof.
  destruct (NotifyResize_window_size 120 40 session_up eq_refl
              ltac:(simpl; lia))
    as (rest & s' & Hcall & Hcols & Hrows & Hsmall).
  exists rest, s'.
  split; [exact Hcall|]. split; [exact Hcols|]. split; [exact Hrows|].
  apply Hsmall; lia.
Defined.

Example NotifyResize_120_40 :
  NotifyResize 120 40 session_up =
    ([Ioctl_winsz 5 120 40; Kill 100 SIGWINCH],
     Returns (set_rows 40 (set_cols 120 session_up))).
Proof. reflexivity. Qed.

Example NotifyResize_wraps :
  trace_of (NotifyResize 70000 (-1) session_up) =
    [Ioctl_winsz 5 4464 65535; Kill 100 SIGWINCH].
Proof. reflexivity. Qed.

(** * The machine *)

(** ** The caller's steps add up to the member functions *)

Lemma machine_runs_StopShell (e : Env) (g : Global) :
  main g = M_idle -> m_running (sess g) = true ->
  r_pc (reader g) = R_done -> forwarder g = F_done ->
  run (sch_stop e) g =
    Some (by_caller (trace_of (StopShell e (sess g))),
          mkGlobal (stopped (sess g)) M_idle (reader g) (forwarder g)).
Proof.
  intros Hm Hrun Hr Hf.
  rewrite (StopShell_running e (sess g) Hrun).
  destruct g as [[cb run pid fd rt st c r rp ai] m [rpc pfd] f].
  simpl in Hm, Hrun, Hr, Hf. subst m run rpc f.
  unfold sch_stop, by_caller, stop_calls, stopped, trace_of. simpl.
  open_step. open_action. open_setters. simpl.
  destruct (0 <? pid) eqn:Hpid, (kill0_ret e =? 0), (0 <=? fd) eqn:Hfd, rt, st, cb;
    simpl; try rewrite Hpid; try rewrite Hfd; reflexivity.
Qed.

Lemma machine_runs_StartShell (e : Env) (callback : bool) (g : Global)
    (t : list event) (s' : Session) :
  main g = M_idle -> m_running (sess g) = false ->
  StartShell e callback (sess g) = (t, Returns s') ->
  exists g',
    run (sch_start e callback) g = Some (by_caller t, g') /\
    sess g' = s' /\ main g' = M_idle.
Proof.
  intros Hm Hrun Hstart.
  destruct g as [[cb run pid fd rt st c r rp ai] m [rpc pfd] f].
  simpl in Hm, Hrun. subst m run.
  unfold sch_start, by_caller. simpl. simpl in Hstart.
  revert Hstart. open_step. open_action. open_setters. simpl.
  intros Hstart. split_ifs Hstart; try discriminate;
    injection Hstart as <- <-; simpl;
    repeat (match goal with
            | H : ?c = _ |- context [?c] => rewrite H
            end; simpl);
    eexists; repeat split.
Qed.

(** ** The invariant holds along every schedule *)

Lemma invariant_calms (g : Global) (s' : Session) (r : reader_state)
    (f : forwarder_pc) :
  invariant g -> calms (sess g) s' -> invariant (mkGlobal s' (main g) r f).
Proof.
  intros [Hv Hs Hc] (Hpid & Hfd & Hrun).
  constructor; simpl.
  - intros Hm Hr. rewrite Hpid, Hfd. auto.
  - intros Hm. destruct (m_running s') eqn:Hr; [|reflexivity].
    rewrite <- (Hs Hm). symmetry. now apply Hrun.
  - intros Hm. rewrite Hfd. auto.
Qed.

Lemma worker_step_calms (l : label) (e : Env) (g g' : Global) (t : stamped) :
  l = L_reader \/ l = L_forwarder \/ l = L_sigwinch ->
  step l e g = Some (t, g') ->
  main g' = main g /\ calms (sess g) (sess g').
Proof.
  intros Hl Hstep.
  destruct g as [[cb run pid fd rt st c r rp ai] m [rpc pfd] f].
  destruct Hl as [-> | [-> | ->]]; simpl in Hstep.
  - open_step. destruct rpc; simpl in Hstep; revert Hstep; open_action;
      open_setters; simpl; intros Hstep; split_ifs Hstep;
      try discriminate; injection Hstep as <- <-;
      simpl; unfold calms; simpl; auto; repeat split; congruence.
  - open_step. destruct f; simpl in Hstep; revert Hstep; open_action;
      open_setters; simpl; intros Hstep; split_ifs Hstep;
      try discriminate; injection Hstep as <- <-;
      simpl; unfold calms; simpl; auto.
  - open_step. revert Hstep; open_action;
      open_setters; simpl; intros Hstep; split_ifs Hstep;
      try discriminate; injection Hstep as <- <-;
      simpl; unfold calms; simpl; auto.
Qed.

Lemma caller_step_invariant (l : label) (e : Env) (g g' : Global) (t : stamped) :
  (l = L_main \/ exists c, l = L_call c) ->
  sane e -> invariant g -> step l e g = Some (t, g') -> invariant g'.
Proof.
  intros Hl Hsane [Hv Hs Hc] Hstep.
  destruct g as [[cb run pid fd rt st c r rp ai] m [rpc pfd] f].
  unfold sane in Hsane. simpl in Hv, Hs, Hc.
  destruct Hl as [-> | [[callback| |command|cols rows] ->]]; destruct m;
    simpl in Hstep; try discriminate.
  all: try specialize (Hs eq_refl); try specialize (Hc eq_refl).
  all: try (assert (Hvalid : run = true -> 0 < pid /\ 0 <= fd)
              by (apply Hv; discriminate)); clear Hv.
  all: step_cases Hstep.
  all: constructor; simpl; intros; try discriminate; try congruence;
    try lia; auto.
Qed.

Lemma step_invariant (l : label) (e : Env) (g g' : Global) (t : stamped) :
  sane e -> invariant g -> step l e g = Some (t, g') -> invariant g'.
Proof.
  intros Hsane Hinv Hstep.
  destruct l as [c| | | |].
  - apply (caller_step_invariant (L_call c) e g g' t); eauto.
  - apply (caller_step_invariant L_main e g g' t); auto.
  - destruct (worker_step_calms L_reader e g g' t) as [Hm Hcalm]; auto.
    destruct g' as [s' m' r' f']. simpl in Hm, Hcalm. subst m'.
    now apply invariant_calms.
  - destruct (worker_step_calms L_forwarder e g g' t) as [Hm Hcalm]; auto.
    destruct g' as [s' m' r' f']. simpl in Hm, Hcalm. subst m'.
    now apply invariant_calms.
  - destruct (worker_step_calms L_sigwinch e g g' t) as [Hm Hcalm]; auto.
    destruct g' as [s' m' r' f']. simpl in Hm, Hcalm. subst m'.
    now apply invariant_calms.
Qed.

Lemma run_invariant (sch : schedule) :
  forall (g g' : Global) (t : stamped),
    Forall (fun le => sane (snd le)) sch ->
    invariant g -> run sch g = Some (t, g') -> invariant g'.
Proof.
  induction sch as [|[l e] rest IH]; intros g g' t Hsane Hinv Hrun.
  - simpl in Hrun. injection Hrun as _ <-. assumption.
  - simpl in Hrun. inversion Hsane as [|? ? He Hrest]; subst.
    destruct (step l e g) as [[t1 g1]|] eqn:Hstep; [|discriminate].
    destruct (run rest g1) as [[t2 g2]|] eqn:Hrest'; [|discriminate].
    injection Hrun as _ <-.
    apply (IH g1 g2 t2 Hrest); [|assumption].
    exact (step_invariant l e g g1 t1 He Hinv Hstep).
Qed.

Lemma boot_invariant : invariant boot.
Proof. constructor; simpl; intros; discriminate. Qed.

Lemma reachable_invariant (g : Global) : reachable g -> invariant g.
Proof.
  intros (sch & t & Hsane & Hrun).
  exact (run_invariant sch boot g t Hsane boot_invariant Hrun).
Qed.

Lemma close_step (l : label) (e : Env) (g g' : Global) (t : stamped)
    (who : context) (d : Z) :
  step l e g = Some (t, g') -> In (who, Close d) t ->
  l = L_main /\ who = Caller /\ main g = M_stop_close /\
  d = m_master_fd (sess g) /\
  m_reader_thread (sess g') = m_reader_thread (sess g).
Proof.
  intros Hstep Hin.
  destruct g as [[cb run pid fd rt st c r rp ai] m [rpc pfd] f].
  destruct l as [[callback| |command|cols rows]| | | |];
    (destruct m; simpl in Hstep; try discriminate).
  all: step_cases Hstep.
  all: hunt Hin.
  all: injection Hin as <- <-; simpl; auto.
Qed.

Lemma join_step (l : label) (e : Env) (g g' : Global) (t : stamped)
    (who : context) :
  step l e g = Some (t, g') -> In (who, Join Reader) t ->
  l = L_main /\ who = Caller /\ main g = M_stop_join_reader /\
  r_pc (reader g) = R_done.
Proof.
  intros Hstep Hin.
  destruct g as [[cb run pid fd rt st c r rp ai] m [rpc pfd] f].
  destruct l as [[callback| |command|cols rows]| | | |];
    (destruct m; simpl in Hstep; try discriminate).
  all: step_cases Hstep.
  all: hunt Hin.
  all: injection Hin as <-; simpl; auto.
Qed.

Lemma sane_ok : sane env_ok.
Proof. unfold sane. simpl. lia. Qed.

Lemma sane_poll (ret errno revents : Z) : sane (env_poll ret errno revents).
Proof. unfold sane. simpl. lia. Qed.

Lemma sane_read (ret errno : Z) (buf : string) : sane (env_read ret errno buf).
Proof. unfold sane. simpl. lia. Qed.

Create HintDb sane_db.
#[local] Hint Resolve sane_ok sane_poll sane_read : sane_db.

Lemma reach_reader_in_loop : reachable g_reader_in_loop.
Proof.
  exists sch_reader_in_loop. eexists. split.
  - repeat constructor; simpl; auto with sane_db.
  - reflexivity.
Qed.

Lemma reach_before_close : reachable g_before_close.
Proof.
  exists sch_stop_before_close. eexists. split.
  - repeat constructor; simpl; auto with sane_db.
  - reflexivity.
Qed.

Lemma reach_reader_left : reachable g_reader_left.
Proof.
  exists sch_hangup. eexists. split.
  - repeat constructor; simpl; auto with sane_db.
  - reflexivity.
Qed.

(** ** The descriptor and the reader thread *)

(** C3 as stated fails.  After a successful start the reader passes its
    loop test and is about to call [poll]; the caller runs [StopShell] up to
    and including [close(5)]; the reader has not returned, and its next step
    is [poll] on descriptor 5, which is closed by then. *)
Lemma close_while_reader_polls :
  reachable g_before_close /\
  r_pc (reader g_before_close) = R_poll /\
  step L_main env_ok g_before_close
    = Some ([(Caller, Close 5)], g_after_close) /\
  r_pc (reader g_after_close) <> R_done /\
  m_reader_thread (sess g_after_close) = true /\
  step L_reader (env_poll 1 0 POLLNVAL) g_after_close
    = Some ([(Worker Reader, Poll 5 150)],
            mkGlobal (sess g_after_close) M_stop_join_reader
              (mkReader R_exit 5) F_init).
Proof.
  split; [exact reach_before_close|].
  repeat split; try reflexivity. discriminate.
Qed.

(** C3, as the code has it.  In every execution the only step that closes
    the master descriptor is the one of [StopShell] (lines 108-111); when it
    is taken the running flag has already been cleared, and the reader thread
    has not been joined yet (it may still be inside its loop).  The reader is
    joined only later, when the descriptor field is already invalid and the
    thread function has returned. *)
Theorem close_after_flag_before_join (g g' : Global) (l : label) (e : Env)
    (t : stamped) (who : context) :
  reachable g -> step l e g = Some (t, g') ->
  (forall d, In (who, Close d) t ->
     who = Caller /\ main g = M_stop_close /\ d = m_master_fd (sess g) /\
     m_running (sess g) = false /\
     m_reader_thread (sess g') = m_reader_thread (sess g)) /\
  (In (who, Join Reader) t ->
     who = Caller /\ main g = M_stop_join_reader /\
     m_master_fd (sess g) < 0 /\ r_pc (reader g) = R_done).
Proof.
  intros Hreach Hstep.
  destruct (reachable_invariant g Hreach) as [_ Hstop Hclosed].
  split.
  - intros d Hin.
    destruct (close_step l e g g' t who d Hstep Hin)
      as (_ & Hwho & Hmain & Hd & Hthread).
    repeat split; try assumption.
    apply Hstop. rewrite Hmain. reflexivity.
  - intros Hin.
    destruct (join_step l e g g' t who Hstep Hin) as (_ & Hwho & Hmain & Hpc).
    repeat split; try assumption.
    apply Hclosed. rewrite Hmain. reflexivity.
Qed.

Lemma close_after_flag_before_join_witness :
  Caller = Caller /\ main g_before_close = M_stop_close /\
  5 = m_master_fd (sess g_before_close) /\
  m_running (sess g_before_close) = false /\
  m_reader_thread (sess g_after_close)
    = m_reader_thread (sess g_before_close).
Proof.
  refine (proj1 (close_after_flag_before_join g_before_close g_after_close
                   L_main env_ok [(Caller, Close 5)] Caller
                   reach_before_close eq_refl) 5 _).
  simpl. left. reflexivity.
Defined.

(** ** The running flag and the validity of pid and descriptor *)

(** C4 as stated fails.  When the pseudo-terminal hangs up the reader thread
    leaves its loop and clears the running flag (line 184); the child pid and
    the master descriptor stay as [StartShell] set them.  The flag is then
    false although both are valid, and [StopShell] has nothing left to do. *)
Lemma reader_exit_keeps_pid_and_fd :
  reachable g_reader_left /\
  main g_reader_left = M_idle /\
  m_running (sess g_reader_left) = false /\
  0 < m_child_pid (sess g_reader_left) /\
  0 <= m_master_fd (sess g_reader_left) /\
  ~ (m_running (sess g_reader_left) = true <->
     0 < m_child_pid (sess g_reader_left) /\
     0 <= m_master_fd (sess g_reader_left)).
Proof.
  split; [exact reach_reader_left|].
  split; [reflexivity|]. split; [reflexivity|].
  split; [simpl; lia|]. split; [simpl; lia|].
  simpl. intros [_ H]. assert (false = true) by (apply H; lia). discriminate.
Qed.

(** C4, as the code has it.  In every state the machine can reach, outside
    a [StartShell] that has set the flag and not yet tested [forkpty]'s
    result, a set running flag implies a valid child pid ([> 0]) and a valid
    master descriptor ([>= 0]).  (The converse is what fails.) *)
Theorem running_implies_valid (g : Global) :
  reachable g -> main g <> M_start -> m_running (sess g) = true ->
  0 < m_child_pid (sess g) /\ 0 <= m_master_fd (sess g).
Proof.
  intros Hreach. exact (inv_valid g (reachable_invariant g Hreach)).
Qed.

Lemma running_implies_valid_witness :
  0 < m_child_pid (sess g_reader_in_loop) /\
  0 <= m_master_fd (sess g_reader_in_loop).
Proof.
  apply (running_implies_valid g_reader_in_loop reach_reader_in_loop);
    [discriminate | reflexivity].
Defined.

(** ** What the callback receives *)

(** C5 as stated fails.  The closing notice of the reader and a chunk of
    child output that happens to read "[*] PTY closed" reach the callback as
    the same string, from the same thread; no test on the string, by prefix
    or otherwise, tells a notice from child output. *)
Lemma child_output_passes_for_notice :
  deliveries sch_child_prints
    = Some [(Caller, msg_started); (Worker Reader, msg_closed)] /\
  deliveries sch_hangup
    = Some [(Caller, msg_started); (Worker Reader, msg_closed)] /\
  msg_closed = append output_tag (push_back "[*] PTY closed" LF) /\
  ~ (exists is_notice : string -> bool,
       is_notice msg_closed = true /\
       forall chunk, is_notice (append output_tag chunk) = false).
Proof.
  split; [|split; [|split]].
  - vm_compute. reflexivity.
  - vm_compute. reflexivity.
  - reflexivity.
  - intros (is_notice & Hnotice & Hchunk).
    specialize (Hchunk (push_back "[*] PTY closed" LF)).
    change (append output_tag (push_back "[*] PTY closed" LF))
      with msg_closed in Hchunk.
    congruence.
Qed.

Lemma prefix_append (p x : string) : prefix p (append p x) = true.
Proof.
  induction p as [|a p IH]; simpl.
  - destruct x; reflexivity.
  - destruct (ascii_dec a a); [assumption | congruence].
Qed.

(** C5, as the code has it.  Every string any context hands to the callback
    starts with the one literal [ISHELL_OUTPUT:], child output and notices
    alike. *)
Theorem every_sink_string_tagged (l : label) (e : Env) (g g' : Global)
    (t : stamped) (who : context) (m : string) :
  step l e g = Some (t, g') -> In (who, Sink m) t ->
  prefix output_tag m = true.
Proof.
  intros Hstep Hin.
  destruct g as [[cb run pid fd rt st c r rp ai] mp [rpc pfd] f].
  destruct l as [[callback| |command|cols rows]| | | |];
    (destruct mp; simpl in Hstep; try discriminate).
  all: step_cases Hstep.
  all: hunt Hin.
  all: injection Hin as _ <-.
  all: try reflexivity.
  all: match goal with
       | |- context [string_of_buf ?b ?n] =>
           exact (prefix_append output_tag (string_of_buf b n))
       end.
Qed.

Lemma every_sink_string_tagged_witness :
  prefix output_tag (append output_tag "hello") = true.
Proof.
  refine (every_sink_string_tagged L_reader (env_read 5 0 "hello")
            (mkGlobal session_up M_idle (mkReader R_read 5) F_init) _
            [(Worker Reader, Read_ 5 4096);
             (Worker Reader, Sink (append output_tag "hello"))]
            (Worker Reader) _ eq_refl _).
  simpl. right. left. reflexivity.
Defined.

(** * Further properties of the member functions *)

(** ** StartShell, the parent after a successful fork *)






(** X3.  A [StartShell] on an object that is not running but still holds a
    joinable thread handle (the reader ended on its own and nobody joined
    it): when [forkpty] succeeds the child is forked, the new reader thread
    is started, and the move assignment to the first handle that is still
    joinable calls [std::terminate] - right after the new reader thread has
    been started when the reader handle is joinable, after the new
    forwarder thread has been started too when only the forwarder handle
    is.  The call never returns, installs no SIGWINCH handler and sends no
    start notice. *)
Theorem StartShell_leftover_thread (e : Env) (callback : bool) (s : Session) :
  m_running s = false -> 0 < forkpty_ret e ->
  m_reader_thread s = true \/ m_signal_thread s = true ->
  exists before,
    StartShell e callback s =
      (before ++
         [Forkpty (to_ushort (m_cols s)) (to_ushort (m_rows s)) 0 0;
          Fcntl_nonblock (forkpty_master e); Spawn Reader] ++
         (if m_reader_thread s then [] else [Spawn Forwarder]),
       Terminates) /\
    (forall w, ~ In (Spawn w) before).
Proof.
  intros Hrun Hret Hj. destruct s as [cb run pid fd rt st c r rp ai].
  simpl in Hrun, Hj. subst run.
  assert (H0 : (0 <? forkpty_ret e) = true) by (apply Z.ltb_lt; lia).
  assert (H1 : (forkpty_ret e <? 0) = false) by (apply Z.ltb_ge; lia).
  assert (H2 : (forkpty_ret e =? 0) = false) by (apply Z.eqb_neq; lia).
  exists ([Store_running true; Tcgetattr STDIN_FILENO] ++
          (if tcgetattr_ret e <? 0 then [Cfmakeraw] else [])).
  split.
  - open_action. open_setters. simpl.
    destruct (tcgetattr_ret e <? 0); simpl; rewrite H0; simpl; rewrite H1;
      simpl; rewrite H2; simpl;
      destruct rt, st; simpl; (destruct Hj; try discriminate); reflexivity.
  - intros w Hin.
    destruct (tcgetattr_ret e <? 0); simpl in Hin;
      repeat (destruct Hin as [Hin | Hin]; [discriminate|]); exact Hin.
Qed.

Lemma StartShell_leftover_thread_witness :
  exists before,
    StartShell env_ok true (set_thread Reader false (set_running false session_up)) =
      (before ++
         [Forkpty (to_ushort 80) (to_ushort 24) 0 0;
          Fcntl_nonblock 5; Spawn Reader] ++ [Spawn Forwarder],
       Terminates) /\
    (forall w, ~ In (Spawn w) before).
Proof.
  apply (StartShell_leftover_thread env_ok true
           (set_thread Reader false (set_running false session_up)));
    [reflexivity | simpl; lia | right; reflexivity].
Defined.

(** ** The destructor *)



(** ** IsShellRunning *)



(** ** StopShell, what it leaves, and starting again *)



(** ** NotifyResize and the next session *)

Lemma NotifyResize_running (cols rows : Z) (s : Session) :
  m_running s = true -> 0 <= m_master_fd s ->
  NotifyResize cols rows s =
    (Ioctl_winsz (m_master_fd s) (to_ushort cols) (to_ushort rows)
       :: (if 0 <? m_child_pid s then [Kill (m_child_pid s) SIGWINCH] else []),
     Returns (set_rows rows (set_cols cols s))).
Proof.
  intros Hrun Hfd. destruct s as [cb run pid fd rt st c r rp ai].
  simpl in Hrun, Hfd. subst run. apply Z.ltb_ge in Hfd.
  unfold NotifyResize, when, ifte, seq, sys, modify, skip,
    set_cols, set_rows. simpl. rewrite Hfd. simpl.
  destruct (0 <? pid); reflexivity.
Qed.

(** Whatever [forkpty] answers, a [StartShell] that gets past its entry
    test calls it with the stored size. *)
Lemma StartShell_forks (e : Env) (callback : bool) (s : Session) :
  m_running s = false ->
  In (Forkpty (to_ushort (m_cols s)) (to_ushort (m_rows s)) 0 0)
     (trace_of (StartShell e callback s)).
Proof.
  intros Hrun. destruct s as [cb run pid fd rt st c r rp ai].
  simpl in Hrun. subst run.
  open_action. open_setters. simpl.
  repeat match goal with
         | |- context [if ?c then _ else _] =>
             lazymatch c with
             | context [if _ then _ else _] => fail
             | _ => destruct c eqn:?; simpl
             end
         end; auto 10.
Qed.

(** X7.  The size given to [NotifyResize] on a running session with a valid
    descriptor survives [StopShell]: the next [StartShell] hands it, reduced
    mod 2^16, to [forkpty] as the window size of the new terminal. *)
Theorem NotifyResize_carries_over (e1 e2 : Env) (callback : bool)
    (cols rows : Z) (s : Session) :
  m_running s = true -> 0 <= m_master_fd s ->
  exists t0 s0 t1 s1,
    NotifyResize cols rows s = (t0, Returns s0) /\
    StopShell e1 s0 = (t1, Returns s1) /\
    In (Forkpty (cols mod 2 ^ 16) (rows mod 2 ^ 16) 0 0)
       (trace_of (StartShell e2 callback s1)).
Proof.
  intros Hrun Hfd.
  eexists _, _, _, _. split; [now apply NotifyResize_running|].
  split.
  - apply StopShell_running. destruct s; exact Hrun.
  - exact (StartShell_forks e2 callback
             (stopped (set_rows rows (set_cols cols s))) eq_refl).
Qed.

Lemma NotifyResize_carries_over_witness :
  exists t0 s0 t1 s1,
    NotifyResize 132 50 session_up = (t0, Returns s0) /\
    StopShell env_ok s0 = (t1, Returns s1) /\
    In (Forkpty (132 mod 2 ^ 16) (50 mod 2 ^ 16) 0 0)
       (trace_of (StartShell env_ok true s1)).
Proof.
  exact (NotifyResize_carries_over env_ok env_ok true 132 50 session_up
           eq_refl ltac:(simpl; lia)).
Defined.

(** ** The terminator and the console *)

Lemma back_some (s : string) : s <> EmptyString -> exists c, back s = Some c.
Proof.
  induction s as [|a s IH]; [congruence|]. intros _.
  destruct s as [|b s]; [exists a; reflexivity|].
  destruct IH as [c Hc]; [discriminate|]. exists c. exact Hc.
Qed.

Lemma terminated_back (command : string) :
  command <> EmptyString -> back (terminated command) = Some LF.
Proof.
  intros Hne. destruct (terminated_spec command) as (_ & Hadd & Hkeep).
  destruct (back_some command Hne) as [c Hc].
  destruct (Ascii.eqb c LF) eqn:Hlf.
  - apply Ascii.eqb_eq in Hlf. subst c. rewrite (Hkeep Hc). exact Hc.
  - rewrite Hadd; [apply back_push_back | assumption |].
    intros H. rewrite H in Hc. injection Hc as <-.
    rewrite Ascii.eqb_refl in Hlf. discriminate.
Qed.

Lemma terminated_idempotent (command : string) :
  terminated (terminated command) = terminated command.
Proof.
  destruct command as [|a rest]; [reflexivity|].
  destruct (terminated_spec (terminated (String a rest))) as (_ & _ & Hkeep).
  apply Hkeep. apply terminated_back. discriminate.
Qed.

(** X8.  Adding the terminator is idempotent: on a running session with a
    valid descriptor, a command that already carries the terminator
    [WriteToShell] would add is written exactly as the bare command is, and
    what is written for a non-empty command always ends with ['\n']. *)
Theorem WriteToShell_normalises (e : Env) (command : string) (s : Session) :
  m_running s = true -> 0 <= m_master_fd s ->
  WriteToShell e (terminated command) s = WriteToShell e command s /\
  (command <> EmptyString ->
   exists data rest,
     trace_of (WriteToShell e command s) = Write_ (m_master_fd s) data :: rest /\
     back data = Some LF).
Proof.
  intros Hrun Hfd.
  rewrite !(WriteToShell_running e _ s Hrun Hfd), terminated_idempotent.
  split; [reflexivity|]. intros Hne.
  exists (terminated command).
  destruct (write_fatal e); eexists; (split; [reflexivity|]);
    now apply terminated_back.
Qed.

Lemma WriteToShell_normalises_witness :
  WriteToShell env_ok (terminated "ls") session_up
    = WriteToShell env_ok "ls" session_up /\
  exists data rest,
    trace_of (WriteToShell env_ok "ls" session_up) = Write_ 5 data :: rest /\
    back data = Some LF.
Proof.
  destruct (WriteToShell_normalises env_ok "ls" session_up eq_refl
              ltac:(simpl; lia)) as [Hsame Hends].
  split; [exact Hsame|]. apply Hends. discriminate.
Defined.

Lemma console_dispatch_write (line l : string) :
  console_dispatch line = Console_write l -> l = line /\ line <> EmptyString.
Proof.
  unfold console_dispatch. destruct line as [|a rest]; [discriminate|].
  cbn [empty].
  destruct (String.eqb (String a rest) "exit" || String.eqb (String a rest) "quit");
    [discriminate|].
  destruct (String.eqb (String a rest) "resize 120 40"); [discriminate|].
  intros H. injection H as <-. split; [reflexivity | discriminate].
Qed.

Lemma console_dispatch_break (line : string) :
  console_dispatch line = Console_break <->
  line = EmptyString \/ line = "exit" \/ line = "quit".
Proof.
  unfold console_dispatch. destruct line as [|a rest].
  - simpl. split; auto.
  - cbn [empty].
    destruct (String.eqb (String a rest) "exit") eqn:He;
      [apply String.eqb_eq in He; rewrite He; simpl; split; auto|].
    destruct (String.eqb (String a rest) "quit") eqn:Hq;
      [apply String.eqb_eq in Hq; rewrite Hq; simpl; split; auto|].
    apply String.eqb_neq in He, Hq. cbn [orb].
    destruct (String.eqb (String a rest) "resize 120 40");
      (split; [intros H; discriminate H|]);
      intros [H | [H | H]]; congruence.
Qed.

(** Whatever the state of the object, a [write] made by [WriteToShell] for a
    non-empty line goes to the stored descriptor and ends with ['\n']. *)
Lemma WriteToShell_writes (e : Env) (line : string) (s : Session)
    (fd : Z) (data : string) :
  line <> EmptyString ->
  In (Write_ fd data) (trace_of (WriteToShell e line s)) ->
  fd = m_master_fd s /\ back data = Some LF /\
  (data = line \/ data = push_back line LF).
Proof.
  intros Hne Hin.
  destruct (m_running s) eqn:Hrun.
  2:{ unfold WriteToShell, ifte, skip, trace_of in Hin.
      rewrite Hrun in Hin. contradiction. }
  destruct (m_master_fd s <? 0) eqn:Hfd.
  { unfold WriteToShell, ifte, skip, trace_of in Hin.
    rewrite Hrun, Hfd in Hin. contradiction. }
  apply Z.ltb_ge in Hfd.
  assert (Hdata : back (terminated line) = Some LF /\
                  (terminated line = line \/
                   terminated line = push_back line LF)).
  { split; [now apply terminated_back|].
    destruct (terminated_spec line) as (_ & Hadd & Hkeep).
    destruct (back_some line Hne) as [c Hc].
    destruct (Ascii.eqb c LF) eqn:Hlf.
    - apply Ascii.eqb_eq in Hlf. subst c. left. now apply Hkeep.
    - right. apply Hadd; [assumption|]. intros H. rewrite H in Hc.
      injection Hc as <-. rewrite Ascii.eqb_refl in Hlf. discriminate. }
  rewrite (WriteToShell_running e line s Hrun Hfd) in Hin.
  destruct (write_fatal e); simpl in Hin.
  - destruct Hin as [Hin | Hin].
    + injection Hin as <- <-. tauto.
    + rewrite (StopShell_running e s Hrun) in Hin.
      unfold stop_calls in Hin. simpl in Hin.
      destruct (0 <? m_child_pid s), (kill0_ret e =? 0),
        (0 <=? m_master_fd s), (m_reader_thread s), (m_signal_thread s),
        (m_callback s); simpl in Hin;
        repeat (destruct Hin as [Hin | Hin]; [discriminate|]);
        contradiction.
  - destruct Hin as [Hin | Hin]; [|contradiction].
    injection Hin as <- <-. tauto.
Qed.

Lemma in_map_calls (ev : event) (t : list event) :
  In (Calls ev) (map Calls t) -> In ev t.
Proof.
  intros Hin. apply in_map_iff in Hin. destruct Hin as (x & Hx & Hin).
  injection Hx as <-. exact Hin.
Qed.

(** X9.  One pass of the input loop of [main], loop test included.  The
    loop is left exactly when [g_running] is false, or [IsShellRunning]
    answers false, or [getline] fails, or the line read is empty, [exit] or
    [quit]; when [g_running] is false not even the probe of
    [IsShellRunning] is made, and when the loop is left inside its body no
    member function has been called after that probe.  Whatever the object's
    state and the line, every [write] the pass causes goes to the stored
    descriptor, carries the line read or that line plus one ['\n'], and
    ends with ['\n'] (an empty line never reaches [WriteToShell]). *)
Theorem console_pass_behaviour (g_running : bool) (probe : Env)
    (input : option string) (e : Env) (s : Session) :
  let r := console_pass g_running probe input e s in
  (pass_continues r = false <->
   g_running = false \/ snd (IsShellRunning probe s) = false \/
   input = None \/ input = Some EmptyString \/
   input = Some "exit" \/ input = Some "quit") /\
  (g_running = false -> pass_events r = []) /\
  (pass_continues r = false ->
   pass_outcome r = Returns s /\
   forall ev, In (Calls ev) (pass_events r) ->
              In ev (fst (IsShellRunning probe s))) /\
  (forall fd data, In (Calls (Write_ fd data)) (pass_events r) ->
     exists line,
       input = Some line /\ fd = m_master_fd s /\ back data = Some LF /\
       (data = line \/ data = push_back line LF)).
Proof.
  unfold console_pass.
  destruct g_running; cbn [negb].
  2:{ cbn. split; [split; auto|]. split; [reflexivity|].
      split; [intros _; split; [reflexivity | intros ev []]|].
      intros fd data []. }
  destruct (IsShellRunning probe s) as [t0 alive] eqn:Hprobe. cbn [snd fst].
  assert (Ht0 : forall fd data, ~ In (Write_ fd data) t0).
  { intros fd data Hin. unfold IsShellRunning in Hprobe.
    destruct (m_running s && (0 <? m_child_pid s)); injection Hprobe as <- _;
      simpl in Hin; [destruct Hin as [Hin | []]; discriminate | exact Hin]. }
  destruct alive; cbn [negb].
  2:{ cbn. split; [split; auto|]. split; [discriminate|].
      split; [intros _; split; [reflexivity|];
              intros ev Hin; now apply in_map_calls|].
      intros fd data Hin. apply in_map_calls in Hin.
      exfalso. exact (Ht0 fd data Hin). }
  assert (Hhead : forall ev,
            In (Calls ev) (map Calls t0 ++ [Prints prompt_text; Reads input])
            -> In ev t0).
  { intros ev Hin. apply in_app_or in Hin. destruct Hin as [Hin | Hin];
      [now apply in_map_calls|].
    simpl in Hin. destruct Hin as [Hin | [Hin | []]]; discriminate. }
  destruct input as [line|].
  2:{ cbn. split; [split; auto|]. split; [discriminate|].
      split; [intros _; split; [reflexivity | exact Hhead]|].
      intros fd data Hin. exfalso. exact (Ht0 fd data (Hhead _ Hin)). }
  pose proof (console_dispatch_break line) as Hbreak.
  destruct (console_dispatch line) as [|cols rows|l] eqn:Hd.
  - cbn. split; [|split; [discriminate|split]].
    + split; [|reflexivity]. intros _.
      destruct (proj1 Hbreak eq_refl) as [-> | [-> | ->]]; auto 10.
    + intros _. split; [reflexivity | exact Hhead].
    + intros fd data Hin. exfalso. exact (Ht0 fd data (Hhead _ Hin)).
  - destruct (NotifyResize cols rows s) as [t o] eqn:Hres. cbn.
    split; [|split; [discriminate|split; [discriminate|]]].
    + split; [discriminate|].
      intros [H | [H | [H | [H | [H | H]]]]]; try discriminate;
        injection H as ->;
        assert (Hb : Console_resize cols rows = Console_break)
          by (apply Hbreak; auto); discriminate Hb.
    + intros fd data Hin. exfalso.
      rewrite app_assoc in Hin. apply in_app_or in Hin.
      destruct Hin as [Hin | Hin];
        [|simpl in Hin; destruct Hin as [Hin | []]; discriminate].
      apply in_app_or in Hin. destruct Hin as [Hin | Hin];
        [exact (Ht0 fd data (Hhead _ Hin))|].
      apply in_map_calls in Hin.
      assert (Ht : t = trace_of (NotifyResize cols rows s))
        by (rewrite Hres; reflexivity).
      subst t. revert Hin. unfold NotifyResize. open_action.
      destruct (negb (m_running s) || (m_master_fd s <? 0)); simpl;
        [tauto|].
      destruct (0 <? m_child_pid _); simpl; intros Hin;
        repeat (destruct Hin as [Hin | Hin]; [discriminate|]); exact Hin.
  - destruct (console_dispatch_write line l Hd) as [Hl Hne]. subst l.
    destruct (WriteToShell e line s) as [t o] eqn:Hw. cbn.
    split; [|split; [discriminate|split; [discriminate|]]].
    + split; [discriminate|].
      intros [H | [H | [H | [H | [H | H]]]]]; try discriminate;
        injection H as ->;
        assert (Hb : Console_write _ = Console_break)
          by (apply Hbreak; auto); discriminate Hb.
    + intros fd data Hin. exists line. split; [reflexivity|].
      apply in_app_or in Hin. destruct Hin as [Hin | Hin];
        [exfalso; exact (Ht0 fd data (Hhead _ Hin))|].
      apply in_map_calls in Hin.
      apply (WriteToShell_writes e line s fd data Hne).
      rewrite Hw. exact Hin.
Qed.

Lemma console_pass_behaviour_witness :
  exists line,
    Some "ls -l" = Some line /\ 5 = m_master_fd session_up /\
    back (push_back "ls -l" LF) = Some LF /\
    (push_back "ls -l" LF = line \/ push_back "ls -l" LF = push_back line LF).
Proof.
  apply (proj2 (proj2 (proj2
           (console_pass_behaviour true env_ok (Some "ls -l") env_ok
              session_up)))).
  vm_compute. right. right. right. left. reflexivity.
Defined.

Example console_pass_forwards_line :
  console_pass true env_ok (Some "ls -l") env_ok session_up =
    mkPass [Calls (Kill 100 0); Prints prompt_text; Reads (Some "ls -l");
            Calls (Write_ 5 (push_back "ls -l" LF))]
      true (Returns session_up).
Proof. reflexivity. Qed.

Example console_pass_shell_gone :
  console_pass true env_ok (Some "ls -l") env_ok
    (set_running false session_up) =
    mkPass [] false (Returns (set_running false session_up)).
Proof. reflexivity. Qed.

Lemma substring_all (s : string) : substring 0 (String.length s) s = s.
Proof. induction s as [|a s IH]; simpl; [reflexivity | now rewrite IH]. Qed.

Lemma console_callback_tagged (x : string) :
  console_callback (append output_tag x) = x.
Proof.
  unfold console_callback.
  change "ISHELL_OUTPUT:" with output_tag.
  rewrite prefix_append. simpl. rewrite Nat.sub_0_r. apply substring_all.
Qed.

(** * Further properties of the machine *)

(** ** What reaches the console *)

(** Every string handed to the callback is the tag followed by a payload. *)
Lemma sink_string_shape (l : label) (e : Env) (g g' : Global) (t : stamped)
    (who : context) (m : string) :
  step l e g = Some (t, g') -> In (who, Sink m) t ->
  exists x, m = append output_tag x.
Proof.
  intros Hstep Hin.
  destruct g as [[cb run pid fd rt st c r rp ai] mp [rpc pfd] f].
  destruct l as [[callback| |command|cols rows]| | | |];
    (destruct mp; simpl in Hstep; try discriminate).
  all: step_cases Hstep.
  all: hunt Hin.
  all: injection Hin as _ <-.
  all: first
    [ match goal with
      | |- context [string_of_buf ?b ?n] =>
          exists (string_of_buf b n); reflexivity
      end
    | eexists; unfold msg_started, msg_forkpty_failed, msg_terminated,
        msg_closed, push_back, output_tag; simpl; reflexivity ].
Qed.

Lemma length_append (a b : string) :
  String.length (append a b) = (String.length a + String.length b)%nat.
Proof. induction a as [|c a IH]; simpl; [reflexivity | now rewrite IH]. Qed.

(** X10.  The callback of [main] and the strings the session hands out fit
    together: for every string any context delivers, [main] takes its first
    branch and prints the string without its 14-character tag, nothing
    added. *)
Theorem console_prints_payload (l : label) (e : Env) (g g' : Global)
    (t : stamped) (who : context) (m : string) :
  step l e g = Some (t, g') -> In (who, Sink m) t ->
  append output_tag (console_callback m) = m /\
  console_callback m <> push_back m LF.
Proof.
  intros Hstep Hin.
  destruct (sink_string_shape l e g g' t who m Hstep Hin) as [x ->].
  rewrite console_callback_tagged. split; [reflexivity|].
  intros H. apply (f_equal String.length) in H.
  unfold push_back, output_tag in H. rewrite !length_append in H.
  simpl in H. lia.
Qed.

Lemma console_prints_payload_witness :
  append output_tag (console_callback msg_closed) = msg_closed /\
  console_callback msg_closed <> push_back msg_closed LF.
Proof.
  refine (console_prints_payload L_reader env_ok
            (mkGlobal session_up M_idle (mkReader R_notify 5) F_init) _
            [(Worker Reader, Sink msg_closed)] (Worker Reader) msg_closed
            eq_refl _).
  simpl. left. reflexivity.
Defined.

(** X11.  A positive [read] with a callback installed: the reader hands the
    callback the tag followed by exactly the first [n] bytes of the buffer,
    so that [main] prints exactly the bytes read, and the reader goes back
    to its loop test with no field of the object changed. *)
Theorem reader_forwards_verbatim (e : Env) (g : Global) :
  r_pc (reader g) = R_read -> m_callback (sess g) = true -> 0 < read_ret e ->
  exists m,
    step L_reader e g =
      Some ([(Worker Reader, Read_ (m_master_fd (sess g)) 4096);
             (Worker Reader, Sink m)],
            mkGlobal (sess g) (main g) (mkReader R_loop (pfd_fd (reader g)))
              (forwarder g)) /\
    console_callback m = substring 0 (Z.to_nat (read_ret e)) (read_buf e).
Proof.
  intros Hpc Hcb Hn.
  exists (append output_tag (string_of_buf (read_buf e) (read_ret e))).
  split; [|apply console_callback_tagged].
  destruct g as [[cb run pid fd rt st c r rp ai] mp [rpc pfd] f].
  simpl in Hpc, Hcb. subst rpc cb.
  assert (H : (read_ret e <=? 0) = false) by (apply Z.leb_gt; lia).
  simpl. open_step. simpl. rewrite H. open_action. simpl. reflexivity.
Qed.

Lemma reader_forwards_verbatim_witness :
  exists m,
    step L_reader (env_read 5 0 "hello world")
      (mkGlobal session_up M_idle (mkReader R_read 5) F_init) =
      Some ([(Worker Reader, Read_ 5 4096); (Worker Reader, Sink m)],
            mkGlobal session_up M_idle (mkReader R_loop 5) F_init) /\
    console_callback m = "hello".
Proof.
  exact (reader_forwards_verbatim (env_read 5 0 "hello world")
           (mkGlobal session_up M_idle (mkReader R_read 5) F_init)
           eq_refl eq_refl ltac:(simpl; lia)).
Defined.

(** ** The reader thread *)

(** X12.  What a step of the reader thread can do: it leaves the caller and
    the forwarder where they are; it changes no field of the object except
    that its exit step clears the running flag; and the only calls it makes
    are [poll] on the descriptor it captured, [read] on the descriptor
    field, and the callback - it never signals or reaps the child and never
    closes or writes the descriptor. *)
Theorem reader_step_frame (e : Env) (g g' : Global) (t : stamped) :
  step L_reader e g = Some (t, g') ->
  main g' = main g /\ forwarder g' = forwarder g /\
  (sess g' = sess g \/
   r_pc (reader g) = R_exit /\ sess g' = set_running false (sess g)) /\
  forall who ev, In (who, ev) t ->
    who = Worker Reader /\
    (ev = Poll (pfd_fd (reader g)) 150 \/
     ev = Read_ (m_master_fd (sess g)) 4096 \/
     ev = Store_running false \/
     exists m, ev = Sink m).
Proof.
  intros Hstep.
  destruct g as [[cb run pid fd rt st c r rp ai] mp [rpc pfd] f].
  destruct rpc; simpl in Hstep; step_cases Hstep; simpl;
    (split; [reflexivity|]); (split; [reflexivity|]); (split; [auto|]);
    intros who ev Hin; hunt Hin; try injection Hin as <- <-;
    (split; [reflexivity|]); eauto 10.
Qed.

Lemma reader_step_frame_witness :
  Worker Reader = Worker Reader /\
  (Poll 5 150 = Poll (pfd_fd (reader g_after_close)) 150 \/
   Poll 5 150 = Read_ (m_master_fd (sess g_after_close)) 4096 \/
   Poll 5 150 = Store_running false \/
   exists m, Poll 5 150 = Sink m).
Proof.
  apply (proj2 (proj2 (proj2
           (reader_step_frame (env_poll 1 0 POLLNVAL) g_after_close
              (mkGlobal (sess g_after_close) M_stop_join_reader
                 (mkReader R_exit 5) F_init)
              [(Worker Reader, Poll 5 150)] eq_refl)))).
  simpl. left. reflexivity.
Defined.

Lemma reader_progress (e : Env) (g : Global) :
  m_running (sess g) = false ->
  match step L_reader e g with
  | Some (t, g') =>
      (reader_rank (r_pc (reader g')) < reader_rank (r_pc (reader g)))%nat /\
      m_running (sess g') = false /\ main g' = main g
  | None => r_pc (reader g) = R_done
  end.
Proof.
  intros Hrun.
  destruct g as [[cb run pid fd rt st c r rp ai] mp [rpc pfd] f].
  simpl in Hrun. subst run.
  destruct rpc; simpl; open_step; open_action; open_setters; simpl;
    unfold after_poll;
    repeat match goal with
           | |- context [if ?c then _ else _] =>
               lazymatch c with
               | context [if _ then _ else _] => fail
               | _ => destruct c eqn:?; simpl
               end
           end; repeat split; lia.
Qed.

Lemma reader_steps_rank (es : list Env) :
  forall g : Global,
    m_running (sess g) = false ->
    (reader_rank (r_pc (reader (snd (reader_steps es g))))
       <= reader_rank (r_pc (reader g)) - List.length es)%nat /\
    m_running (sess (snd (reader_steps es g))) = false /\
    main (snd (reader_steps es g)) = main g.
Proof.
  induction es as [|e rest IH]; intros g Hrun.
  - cbn [reader_steps snd List.length]. repeat split; [lia | assumption].
  - cbn [reader_steps List.length].
    pose proof (reader_progress e g Hrun) as Hp.
    destruct (step L_reader e g) as [[t g']|].
    + destruct Hp as (Hrank & Hrun' & Hmain).
      destruct (IH g' Hrun') as (IHrank & IHrun & IHmain).
      destruct (reader_steps rest g') as [t' g'']. cbn [snd] in *.
      repeat split; [lia | assumption | congruence].
    + cbn [snd]. rewrite Hp. cbn [reader_rank].
      repeat split; [lia | assumption].
Qed.

(** X13.  Once the running flag is clear the reader thread function returns
    after at most five more of its steps, whatever [poll] and [read] answer
    (and without the flag being set again or the caller being moved): the
    join in [StopShell] cannot wait for the reader forever. *)
Theorem reader_returns_after_flag_clear (es : list Env) (g : Global) :
  m_running (sess g) = false -> (5 <= List.length es)%nat ->
  r_pc (reader (snd (reader_steps es g))) = R_done /\
  m_running (sess (snd (reader_steps es g))) = false /\
  main (snd (reader_steps es g)) = main g.
Proof.
  intros Hrun Hlen.
  destruct (reader_steps_rank es g Hrun) as (Hrank & Hrun' & Hmain).
  repeat split; try assumption.
  assert (Hr : (reader_rank (r_pc (reader g)) <= 5)%nat)
    by (destruct (r_pc (reader g)); simpl; lia).
  revert Hrank.
  destruct (r_pc (reader (snd (reader_steps es g)))); simpl; intros Hrank;
    try lia; reflexivity.
Qed.

Lemma reader_returns_after_flag_clear_witness :
  r_pc (reader (snd (reader_steps
     [env_poll 1 0 POLLIN; env_read (-1) EAGAIN EmptyString; env_ok; env_ok;
      env_ok] g_after_close))) = R_done /\
  m_running (sess (snd (reader_steps
     [env_poll 1 0 POLLIN; env_read (-1) EAGAIN EmptyString; env_ok; env_ok;
      env_ok] g_after_close))) = false /\
  main (snd (reader_steps
     [env_poll 1 0 POLLIN; env_read (-1) EAGAIN EmptyString; env_ok; env_ok;
      env_ok] g_after_close)) = main g_after_close.
Proof.
  apply (reader_returns_after_flag_clear
           [env_poll 1 0 POLLIN; env_read (-1) EAGAIN EmptyString; env_ok;
            env_ok; env_ok] g_after_close);
    [reflexivity | simpl; lia].
Defined.

(** *** The answer of poll, bit by bit *)

Lemma testbit_small (a k : Z) :
  0 <= a < 64 -> 6 <= k -> Z.testbit a k = false.
Proof.
  intros Ha Hk. destruct (Z.eq_dec a 0) as [-> | Hnz].
  - apply Z.testbit_0_l.
  - apply Z.bits_above_log2; [lia|].
    assert (Z.log2 a < 6) by (apply Z.log2_lt_pow2; lia). lia.
Qed.

Lemma land_failed_bits (r : Z) :
  (Z.land r poll_failed_bits =? 0)
    = negb (Z.testbit r 3 || Z.testbit r 4 || Z.testbit r 5).
Proof.
  change poll_failed_bits with 56.
  destruct (Z.testbit r 3 || Z.testbit r 4 || Z.testbit r 5) eqn:Hbits; simpl.
  - apply Z.eqb_neq. intros H0.
    assert (Hk : forall k, Z.testbit (Z.land r 56) k = false)
      by (intros k; rewrite H0; apply Z.testbit_0_l).
    pose proof (Hk 3) as H3. pose proof (Hk 4) as H4. pose proof (Hk 5) as H5.
    rewrite Z.land_spec in H3, H4, H5.
    change (Z.testbit 56 3) with true in H3.
    change (Z.testbit 56 4) with true in H4.
    change (Z.testbit 56 5) with true in H5.
    rewrite andb_true_r in H3, H4, H5. rewrite H3, H4, H5 in Hbits.
    discriminate.
  - apply Z.eqb_eq. apply Z.bits_inj'. intros k Hk.
    rewrite Z.land_spec, Z.testbit_0_l.
    apply orb_false_elim in Hbits. destruct Hbits as [Hbits H5].
    apply orb_false_elim in Hbits. destruct Hbits as [H3 H4].
    assert (Hcase : k = 0 \/ k = 1 \/ k = 2 \/ k = 3 \/ k = 4 \/ k = 5
                    \/ 6 <= k) by lia.
    destruct Hcase as [-> | [-> | [-> | [-> | [-> | [-> | Hbig]]]]]];
      try (rewrite andb_false_r; reflexivity);
      try (rewrite H3; reflexivity); try (rewrite H4; reflexivity);
      try (rewrite H5; reflexivity);
      try (change (Z.testbit 56 0) with false; apply andb_false_r);
      try (change (Z.testbit 56 1) with false; apply andb_false_r);
      try (change (Z.testbit 56 2) with false; apply andb_false_r).
    rewrite (testbit_small 56 k); [apply andb_false_r | lia | lia].
Qed.

Lemma land_pollin (r : Z) : (Z.land r POLLIN =? 0) = negb (Z.testbit r 0).
Proof.
  change POLLIN with (Z.ones 1). rewrite Z.land_ones by lia.
  rewrite Z.bit0_odd, <- Z.negb_even. rewrite negb_involutive.
  change (2 ^ 1) with 2. rewrite Zeven_mod. reflexivity.
Qed.

(** X14.  What the reader does with a [poll] that reports events
    ([poll] returned a positive count): any of POLLERR (bit 3), POLLHUP
    (bit 4), POLLNVAL (bit 5) ends the loop without a [read], even when
    POLLIN (bit 0) is reported as well, so output still pending at hang-up
    is not fetched; otherwise POLLIN leads to one [read]; otherwise the loop
    goes on. *)
Theorem reader_after_poll (e : Env) (g : Global) :
  r_pc (reader g) = R_poll -> 0 < poll_ret e ->
  let r := poll_revents e in
  step L_reader e g =
    Some ([(Worker Reader, Poll (pfd_fd (reader g)) 150)],
          mkGlobal (sess g) (main g)
            (mkReader
               (if Z.testbit r 3 || Z.testbit r 4 || Z.testbit r 5 then R_exit
                else if Z.testbit r 0 then R_read
                else R_loop)
               (pfd_fd (reader g)))
            (forwarder g)).
Proof.
  intros Hpc Hret r.
  destruct g as [s mp [rpc pfd] f]. simpl in Hpc. subst rpc.
  assert (H1 : (poll_ret e <? 0) = false) by (apply Z.ltb_ge; lia).
  assert (H2 : (poll_ret e =? 0) = false) by (apply Z.eqb_neq; lia).
  simpl. unfold commit, sys, after_poll. simpl.
  rewrite H1, H2, land_failed_bits, land_pollin, !negb_involutive.
  reflexivity.
Qed.

Lemma reader_after_poll_witness :
  step L_reader env_poll_in_hup g_reader_in_loop =
    Some ([(Worker Reader, Poll 5 150)],
          mkGlobal session_up M_idle (mkReader R_exit 5) F_init).
Proof.
  exact (reader_after_poll env_poll_in_hup g_reader_in_loop eq_refl
           ltac:(simpl; lia)).
Defined.

(** ** The signal-forwarding thread *)

(** X15.  What a step of the forwarding thread can do: it changes no field
    of the object and moves neither the caller nor the reader; besides
    blocking the three signals and waiting for one, its only call is a
    [kill] that carries the signal [sigwait] delivered with result 0 and
    follows, one step later, a test that found the stored pid positive.  The
    [kill] itself is made with whatever pid is stored at the moment of the
    call (line 206 loads [m_child_pid] again), not with the pid tested. *)
Theorem forwarder_step_frame (e : Env) (g g' : Global) (t : stamped) :
  step L_forwarder e g = Some (t, g') ->
  sess g' = sess g /\ main g' = main g /\ reader g' = reader g /\
  (forall who ev, In (who, ev) t ->
     who = Worker Forwarder /\
     (ev = Sigmask_block [SIGINT; SIGTERM; SIGHUP] \/
      ev = Sigwait [SIGINT; SIGTERM; SIGHUP] \/
      exists sig, forwarder g = F_kill sig /\
                  ev = Kill (m_child_pid (sess g)) sig)) /\
  (forall sig, forwarder g' = F_test sig ->
     forwarder g = F_wait /\ sigwait_ret e = 0 /\ sig = sigwait_sig e) /\
  (forall sig, forwarder g' = F_kill sig ->
     forwarder g = F_test sig /\ 0 < m_child_pid (sess g)) /\
  (forall sig, forwarder g = F_kill sig ->
     t = [(Worker Forwarder, Kill (m_child_pid (sess g)) sig)] /\
     forwarder g' = F_loop).
Proof.
  intros Hstep.
  destruct g as [[cb run pid fd rt st c r rp ai] mp [rpc pfd] f].
  destruct f; simpl in Hstep; step_cases Hstep; simpl;
    (split; [reflexivity|]); (split; [reflexivity|]); (split; [reflexivity|]);
    (split; [intros who ev Hin; hunt Hin; try injection Hin as <- <-;
             (split; [reflexivity|]); eauto 10|]);
    (split; [intros s0 Hs; try discriminate Hs; injection Hs as <-;
             repeat split; lia|]);
    (split; [intros s0 Hs; try discriminate Hs; injection Hs as <-;
             repeat split; lia|]);
    intros s0 Hs; try discriminate Hs; injection Hs as <-; split; reflexivity.
Qed.

Lemma forwarder_step_frame_witness :
  [(Worker Forwarder, Kill (-1) SIGINT)]
    = [(Worker Forwarder, Kill (m_child_pid (sess g_forwarder_late)) SIGINT)] /\
  F_loop = F_loop.
Proof.
  exact (proj2 (proj2 (proj2 (proj2 (proj2 (proj2
           (forwarder_step_frame env_ok g_forwarder_late
              (mkGlobal (sess g_forwarder_late) M_stop_close
                 (mkReader R_poll 5) F_loop)
              [(Worker Forwarder, Kill (-1) SIGINT)] eq_refl))))))
           SIGINT eq_refl).
Defined.

(** The state [g_forwarder_late] is one the code reaches: the forwarder
    receives SIGINT and finds the pid positive; the caller then runs
    [StopShell] as far as [m_child_pid = -1]; the forwarder's [kill] goes to
    pid -1. *)
Example forwarder_kill_after_stop :
  reachable g_forwarder_late /\
  step L_forwarder env_ok g_forwarder_late =
    Some ([(Worker Forwarder, Kill (-1) SIGINT)],
          mkGlobal (sess g_forwarder_late) M_stop_close
            (mkReader R_poll 5) F_loop).
Proof.
  split; [|reflexivity].
  exists sch_forwarder_late. eexists. split.
  - repeat constructor; simpl;
      first [apply sane_ok | apply sane_poll | apply sane_read
            | unfold sane; simpl; lia].
  - vm_compute. reflexivity.
Qed.

Lemma stop_waits_step (l : label) (e : Env) (g g' : Global) (t : stamped) :
  main g = M_stop_join_forwarder -> m_signal_thread (sess g) = true ->
  forwarder g = F_wait ->
  step l e g = Some (t, g') -> no_sigwait t ->
  main g' = M_stop_join_forwarder /\ m_signal_thread (sess g') = true /\
  forwarder g' = F_wait.
Proof.
  intros Hm Hst Hf Hstep Hno.
  destruct g as [[cb run pid fd rt st c r rp ai] mp [rpc pfd] f].
  simpl in Hm, Hst, Hf. subst mp st f.
  destruct l as [[callback| |command|cols rows]| | | |];
    simpl in Hstep; try discriminate.
  - destruct rpc; simpl in Hstep; step_cases Hstep; simpl; auto.
  - exfalso. step_cases Hstep;
      apply (Hno forwarded_signals); simpl; auto.
  - step_cases Hstep; simpl; auto.
Qed.

Lemma no_sigwait_app (t1 t2 : stamped) :
  no_sigwait (t1 ++ t2) -> no_sigwait t1 /\ no_sigwait t2.
Proof.
  intros H. split; intros sigs Hin; apply (H sigs); apply in_or_app; auto.
Qed.

(** X16.  [StopShell] waits for a signal.  Once the caller stands at the
    join of the forwarding thread while that thread is inside [sigwait],
    nothing the caller, the reader or the SIGWINCH handler does lets
    [StopShell] go on: along every schedule in which [sigwait] does not
    return, the caller is still at that join (so [StopShell] has not
    returned and the termination notice has not been sent). *)
Theorem stop_waits_for_signal (sch : schedule) :
  forall (g g' : Global) (t : stamped),
    main g = M_stop_join_forwarder -> m_signal_thread (sess g) = true ->
    forwarder g = F_wait ->
    run sch g = Some (t, g') -> no_sigwait t ->
    main g' = M_stop_join_forwarder /\ forwarder g' = F_wait /\
    ~ In (Caller, Sink msg_terminated) t /\
    ~ In (Caller, Join Forwarder) t.
Proof.
  induction sch as [|[l e] rest IH]; intros g g' t Hm Hst Hf Hrun Hno.
  - simpl in Hrun. injection Hrun as <- <-. auto.
  - simpl in Hrun.
    destruct (step l e g) as [[t1 g1]|] eqn:Hstep; [|discriminate].
    destruct (run rest g1) as [[t2 g2]|] eqn:Hrest; [|discriminate].
    injection Hrun as <- <-.
    destruct (no_sigwait_app t1 t2 Hno) as [Hno1 Hno2].
    destruct (stop_waits_step l e g g1 t1 Hm Hst Hf Hstep Hno1)
      as (Hm1 & Hst1 & Hf1).
    destruct (IH g1 g2 t2 Hm1 Hst1 Hf1 Hrest Hno2) as (Hm2 & Hf2 & Hn2 & Hj2).
    repeat split; try assumption.
    + intros Hin. apply in_app_or in Hin. destruct Hin as [Hin | Hin];
        [|exact (Hn2 Hin)].
      clear - Hm Hst Hf Hstep Hin.
      destruct g as [[cb run pid fd rt st c r rp ai] mp [rpc pfd] f].
      simpl in Hm, Hst, Hf. subst mp st f.
      destruct l as [[callback| |command|cols rows]| | | |];
        simpl in Hstep; try discriminate.
      * destruct rpc; simpl in Hstep; step_cases Hstep; hunt Hin.
      * step_cases Hstep; hunt Hin.
      * step_cases Hstep; hunt Hin.
    + intros Hin. apply in_app_or in Hin. destruct Hin as [Hin | Hin];
        [|exact (Hj2 Hin)].
      clear - Hm Hst Hf Hstep Hin.
      destruct g as [[cb run pid fd rt st c r rp ai] mp [rpc pfd] f].
      simpl in Hm, Hst, Hf. subst mp st f.
      destruct l as [[callback| |command|cols rows]| | | |];
        simpl in Hstep; try discriminate.
      * destruct rpc; simpl in Hstep; step_cases Hstep; hunt Hin.
      * step_cases Hstep; hunt Hin.
      * step_cases Hstep; hunt Hin.
Qed.

Lemma stop_waits_for_signal_witness :
  main (pend true g_stop_waits_for_forwarder) = M_stop_join_forwarder /\
  forwarder (pend true g_stop_waits_for_forwarder) = F_wait /\
  ~ In (Caller, Sink msg_terminated) [] /\
  ~ In (Caller, Join Forwarder) [].
Proof.
  apply (stop_waits_for_signal [(L_sigwinch, env_ok); (L_sigwinch, env_ok)]
           g_stop_waits_for_forwarder (pend true g_stop_waits_for_forwarder)
           [] eq_refl eq_refl eq_refl eq_refl).
  intros sigs Hin. exact Hin.
Defined.

(** ** SIGWINCH and the pending flag *)

(** X17.  [m_resize_pending] is advisory only.  No member function and no
    thread reads it: with the flag overwritten every step other than the
    SIGWINCH handler makes the same calls and reaches the same state, flag
    apart; and none of them writes it, so once set it is never cleared. *)
Theorem resize_pending_unused (b : bool) (l : label) (e : Env) (g : Global) :
  l <> L_sigwinch ->
  step l e (pend b g) =
    match step l e g with
    | Some (t, g') => Some (t, pend b g')
    | None => None
    end /\
  (forall t g', step l e g = Some (t, g') ->
     m_resize_pending (sess g') = m_resize_pending (sess g)) /\
  IsShellRunning e (set_resize_pending b (sess g)) = IsShellRunning e (sess g).
Proof.
  intros Hl.
  destruct g as [[cb run pid fd rt st c r rp ai] mp [rpc pfd] f].
  split; [|split; [|reflexivity]].
  - destruct l as [[callback| |command|cols rows]| | | |]; try congruence.
    1-5: destruct mp; try reflexivity.
    all: unfold pend; simpl; open_step; open_action; open_setters; simpl;
      unfold after_poll; split_goal_ifs; reflexivity.
  - intros t g' Hstep.
    destruct l as [[callback| |command|cols rows]| | | |]; try congruence.
    1-5: destruct mp; simpl in Hstep; try discriminate.
    all: simpl in Hstep; step_cases Hstep; reflexivity.
Qed.

Lemma resize_pending_unused_witness :
  step (L_call (C_resize 120 40)) env_ok (pend true g_reader_in_loop) =
    match step (L_call (C_resize 120 40)) env_ok g_reader_in_loop with
    | Some (t, g') => Some (t, pend true g')
    | None => None
    end /\
  (forall t g',
     step (L_call (C_resize 120 40)) env_ok g_reader_in_loop = Some (t, g') ->
     m_resize_pending (sess g') = m_resize_pending (sess g_reader_in_loop)) /\
  IsShellRunning env_ok (set_resize_pending true (sess g_reader_in_loop))
    = IsShellRunning env_ok (sess g_reader_in_loop).
Proof.
  apply (resize_pending_unused true (L_call (C_resize 120 40)) env_ok
           g_reader_in_loop).
  discriminate.
Defined.



(** ** The worker threads and their handles *)

Lemma boot_threads_invariant : threads_invariant boot.
Proof.
  constructor; simpl; intros; try reflexivity; try discriminate; lia.
Qed.

Lemma after_poll_live (e : Env) : reader_live (after_poll e) = true.
Proof.
  unfold after_poll.
  destruct (poll_ret e <? 0), (poll_errno e =? EINTR), (poll_ret e =? 0),
    (negb (Z.land (poll_revents e) poll_failed_bits =? 0)),
    (negb (Z.land (poll_revents e) POLLIN =? 0)); reflexivity.
Qed.

Lemma step_threads_invariant (l : label) (e : Env) (g g' : Global)
    (t : stamped) :
  invariant g -> threads_invariant g -> step l e g = Some (t, g') ->
  threads_invariant g'.
Proof.
  intros [_ Hstop _] [Hrh Hfh Hrj Hfj Hpid Hrun] Hstep.
  destruct g as [[cb run pid fd rt st c r rp ai] mp [rpc pfd] f].
  simpl in Hstop, Hrh, Hfh, Hrj, Hfj, Hpid, Hrun.
  destruct l as [[callback| |command|cols rows]| | | |].
  1-5: destruct mp; simpl in Hstep; try discriminate.
  all: simpl in Hstep; step_cases Hstep.
  all: constructor; simpl in *; rewrite ?after_poll_live; intros; subst;
    try discriminate;
    solve [intuition (try discriminate; try congruence; try lia)].
Qed.

Lemma run_threads_invariant (sch : schedule) :
  forall (g g' : Global) (t : stamped),
    Forall (fun le => sane (snd le)) sch ->
    invariant g -> threads_invariant g -> run sch g = Some (t, g') ->
    threads_invariant g'.
Proof.
  induction sch as [|[l e] rest IH]; intros g g' t Hsane Hinv Hth Hrun.
  - simpl in Hrun. injection Hrun as _ <-. assumption.
  - simpl in Hrun. inversion Hsane as [|? ? He Hrest]; subst.
    destruct (step l e g) as [[t1 g1]|] eqn:Hstep; [|discriminate].
    destruct (run rest g1) as [[t2 g2]|] eqn:Hrest'; [|discriminate].
    injection Hrun as _ <-.
    apply (IH g1 g2 t2 Hrest).
    + exact (step_invariant l e g g1 t1 He Hinv Hstep).
    + exact (step_threads_invariant l e g g1 t1 Hinv Hth Hstep).
    + assumption.
Qed.

Lemma reachable_threads_invariant (g : Global) :
  reachable g -> threads_invariant g.
Proof.
  intros (sch & t & Hsane & Hrun).
  exact (run_threads_invariant sch boot g t Hsane boot_invariant
           boot_threads_invariant Hrun).
Qed.

Lemma reach_stop_waits : reachable g_stop_waits_for_forwarder.
Proof.
  exists sch_stop_waits_for_forwarder. eexists. split.
  - repeat constructor; simpl;
      first [apply sane_ok | apply sane_poll | apply sane_read].
  - vm_compute. reflexivity.
Qed.

Lemma reach_stop_before_finish : reachable g_stop_before_finish.
Proof.
  exists sch_stop_before_finish. eexists. split.
  - repeat constructor; simpl;
      first [apply sane_ok | apply sane_poll | apply sane_read].
  - vm_compute. reflexivity.
Qed.

(** X19.  While the running flag is set (outside a [StartShell] in
    progress) both worker threads have been started and not joined, the
    reader has not reached its exit notice and the forwarder has not
    returned: a running session always has its reader and its forwarder. *)
Theorem running_has_workers (g : Global) :
  reachable g -> main g <> M_start -> m_running (sess g) = true ->
  m_reader_thread (sess g) = true /\ m_signal_thread (sess g) = true /\
  reader_live (r_pc (reader g)) = true /\ forwarder g <> F_done.
Proof.
  intros Hreach. exact (ti_running g (reachable_threads_invariant g Hreach)).
Qed.

Lemma running_has_workers_witness :
  m_reader_thread (sess g_reader_in_loop) = true /\
  m_signal_thread (sess g_reader_in_loop) = true /\
  reader_live (r_pc (reader g_reader_in_loop)) = true /\
  forwarder g_reader_in_loop <> F_done.
Proof.
  apply (running_has_workers g_reader_in_loop reach_reader_in_loop);
    [discriminate | reflexivity].
Defined.

(** X20.  When [StopShell] takes its last step, in any execution, both
    thread functions have returned and both handles have been joined, the
    child pid and the descriptor are invalid and the flag is clear; the step
    sends the termination notice (if a callback is installed) and nothing
    else, and leaves the caller between calls. *)
Theorem StopShell_completion (e : Env) (g g' : Global) (t : stamped) :
  reachable g -> main g = M_stop_finish -> step L_main e g = Some (t, g') ->
  main g' = M_idle /\
  r_pc (reader g') = R_done /\ forwarder g' = F_done /\
  m_reader_thread (sess g') = false /\ m_signal_thread (sess g') = false /\
  m_running (sess g') = false /\
  m_child_pid (sess g') <= 0 /\ m_master_fd (sess g') < 0 /\
  s_active_instance (sess g') = false /\
  t = (if m_callback (sess g) then [(Caller, Sink msg_terminated)] else []).
Proof.
  intros Hreach Hm Hstep.
  destruct (reachable_invariant g Hreach) as [_ Hstop Hclosed].
  destruct (reachable_threads_invariant g Hreach)
    as [Hrh Hfh Hrj Hfj Hpid _].
  destruct g as [[cb run pid fd rt st c r rp ai] mp [rpc pfd] f].
  simpl in *. subst mp. simpl in *.
  specialize (Hstop eq_refl). specialize (Hclosed eq_refl).
  specialize (Hrj eq_refl). specialize (Hfj eq_refl).
  specialize (Hpid eq_refl). subst run rt st.
  specialize (Hrh eq_refl). specialize (Hfh eq_refl). subst rpc f.
  step_cases Hstep; simpl; repeat split; assumption.
Qed.

Lemma StopShell_completion_witness :
  main (mkGlobal (stopped session_up) M_idle (mkReader R_done 5) F_done)
    = M_idle /\
  R_done = R_done /\ F_done = F_done /\
  m_reader_thread (stopped session_up) = false /\
  m_signal_thread (stopped session_up) = false /\
  m_running (stopped session_up) = false /\
  m_child_pid (stopped session_up) <= 0 /\
  m_master_fd (stopped session_up) < 0 /\
  s_active_instance (stopped session_up) = false /\
  [(Caller, Sink msg_terminated)] = [(Caller, Sink msg_terminated)].
Proof.
  exact (StopShell_completion env_ok g_stop_before_finish
           (mkGlobal (stopped session_up) M_idle (mkReader R_done 5) F_done)
           [(Caller, Sink msg_terminated)]
           reach_stop_before_finish eq_refl eq_refl).
Defined.


(** ** A session the reader has left *)

Lemma abandoned_step (l : label) (e : Env) (g g' : Global) (t : stamped) :
  abandoned g -> step l e g = Some (t, g') ->
  abandoned g' /\ forall who ev, In (who, ev) t -> releases ev = false.
Proof.
  intros [Hrt Hmain] Hstep.
  destruct g as [[cb run pid fd rt st c r rp ai] mp [rpc pfd] f].
  simpl in Hrt, Hmain. subst rt.
  destruct Hmain as [-> | [-> ->]];
    destruct l as [[callback| |command|cols rows]| | | |];
    simpl in Hstep; try discriminate.
  all: step_cases Hstep.
  all: split; [unfold abandoned; simpl; auto|].
  all: intros who ev Hin; hunt Hin; try injection Hin as <- <-; reflexivity.
Qed.

Lemma abandoned_run (sch : schedule) :
  forall (g g' : Global) (t : stamped),
    abandoned g -> run sch g = Some (t, g') ->
    abandoned g' /\ forall who ev, In (who, ev) t -> releases ev = false.
Proof.
  induction sch as [|[l e] rest IH]; intros g g' t Hab Hrun.
  - simpl in Hrun. injection Hrun as <- <-. split; [assumption|].
    intros who ev [].
  - simpl in Hrun.
    destruct (step l e g) as [[t1 g1]|] eqn:Hstep; [|discriminate].
    destruct (run rest g1) as [[t2 g2]|] eqn:Hrest; [|discriminate].
    injection Hrun as <- <-.
    destruct (abandoned_step l e g g1 t1 Hab Hstep) as [Hab1 Hno1].
    destruct (IH g1 g2 t2 Hab1 Hrest) as [Hab2 Hno2].
    split; [assumption|]. intros who ev Hin.
    apply in_app_or in Hin. destruct Hin; eauto.
Qed.

(** X21.  Once the reader has ended on its own (flag clear, reader handle
    still joinable, caller between calls), nothing that is called afterwards
    cleans up: along every schedule no descriptor is closed, no child is
    reaped and no thread is joined ([StopShell] returns at its entry test, a
    [StartShell] either fails or ends in [std::terminate]); the reader
    handle stays joinable, so that the destructor, whenever the caller is
    between calls, ends in [std::terminate]. *)
Theorem abandoned_session_never_released (sch : schedule) (e : Env)
    (g g' : Global) (t : stamped) :
  main g = M_idle -> m_running (sess g) = false ->
  m_reader_thread (sess g) = true ->
  run sch g = Some (t, g') ->
  (forall who ev, In (who, ev) t -> releases ev = false) /\
  m_reader_thread (sess g') = true /\
  (main g' = M_idle ->
   StopShell e (sess g') = ([], Returns (sess g')) /\
   outcome_of (destroy e (sess g')) = Terminates).
Proof.
  intros Hm Hrun Hrt Hsch.
  assert (Hab : abandoned g) by (split; auto).
  destruct (abandoned_run sch g g' t Hab Hsch) as [[Hrt' Hmain'] Hno].
  split; [assumption|]. split; [assumption|].
  intros Hidle. destruct Hmain' as [Hs | [_ Hrun']]; [congruence|].
  split; [now apply StopShell_not_running|].
  unfold destroy, seq, outcome_of.
  rewrite (StopShell_not_running e (sess g') Hrun'). simpl.
  rewrite Hrt'. reflexivity.
Qed.

Lemma abandoned_session_never_released_witness :
  (forall who ev,
     In (who, ev) [(Caller, Store_running true); (Caller, Tcgetattr 0);
                   (Caller, Forkpty 80 24 0 0);
                   (Caller, Store_running false);
                   (Caller, Sink msg_forkpty_failed)] ->
     releases ev = false) /\
  m_reader_thread (set_child_pid (-1) (set_running false session_up)) = true /\
  (M_idle = M_idle ->
   StopShell env_ok (set_child_pid (-1) (set_running false session_up))
     = ([], Returns (set_child_pid (-1) (set_running false session_up))) /\
   outcome_of (destroy env_ok
                 (set_child_pid (-1) (set_running false session_up)))
     = Terminates).
Proof.
  exact (abandoned_session_never_released
           [(L_call C_stop, env_ok); (L_call (C_start true), env_ok);
            (L_main, env_fork (-1) 0 false)]
           env_ok g_reader_left
           (mkGlobal (set_child_pid (-1) (set_running false session_up))
              M_idle (mkReader R_done 5) F_init)
           _ eq_refl eq_refl eq_refl eq_refl).
Defined.

(** ** One write per call *)

Lemma writes_app (a b : list event) : writes (a ++ b) = (writes a + writes b)%nat.
Proof.
  induction a as [|ev a IH]; [reflexivity|].
  destruct ev; simpl; rewrite IH; reflexivity.
Qed.

Lemma stop_calls_no_write (e : Env) (s : Session) : writes (stop_calls e s) = 0%nat.
Proof.
  unfold stop_calls.
  destruct (0 <? m_child_pid s), (kill0_ret e =? 0), (0 <=? m_master_fd s),
    (m_reader_thread s), (m_signal_thread s), (m_callback s); reflexivity.
Qed.

(** X22.  [WriteToShell] on a running session with a valid descriptor calls
    [write] exactly once, whatever [write] returns: a short write (fewer
    bytes accepted than given, or none) is neither completed nor retried,
    and when the result is not negative the call changes nothing and makes
    no other call. *)
Theorem WriteToShell_single_write (e : Env) (command : string) (s : Session) :
  m_running s = true -> 0 <= m_master_fd s ->
  writes (trace_of (WriteToShell e command s)) = 1%nat /\
  (0 <= write_ret e ->
   WriteToShell e command s =
     ([Write_ (m_master_fd s) (terminated command)], Returns s)).
Proof.
  intros Hrun Hfd. rewrite (WriteToShell_running e command s Hrun Hfd).
  split.
  - destruct (write_fatal e); [|reflexivity].
    rewrite (StopShell_running e s Hrun). unfold trace_of.
    cbn [fst writes]. f_equal. apply stop_calls_no_write.
  - intros Hn. unfold write_fatal.
    assert (H : (write_ret e <? 0) = false) by (apply Z.ltb_ge; lia).
    rewrite H. reflexivity.
Qed.

Lemma WriteToShell_single_write_witness :
  writes (trace_of (WriteToShell (env_write 1 0) "ls" session_up)) = 1%nat /\
  WriteToShell (env_write 1 0) "ls" session_up =
    ([Write_ 5 (terminated "ls")], Returns session_up).
Proof.
  destruct (WriteToShell_single_write (env_write 1 0) "ls" session_up eq_refl
              ltac:(simpl; lia)) as [Hone Hshort].
  split; [exact Hone|]. apply Hshort. simpl. lia.
Defined.

(** ** Arguments of the calls *)

(** X23.  The calls of the calling thread are guarded.  In every step,
    a [kill] made by the caller ([StopShell], [NotifyResize]) and every
    [waitpid] carry the stored child pid and are made only when that pid is
    positive - never pid 0 or a negative pid; [waitpid], [write], [ioctl]
    and [close] are made by the caller alone, the last three on the stored
    descriptor and only when it is not negative.  The one [kill] made
    elsewhere is the forwarder's, at line 206, with the pid stored at that
    moment. *)
Theorem calls_are_guarded (l : label) (e : Env) (g g' : Global) (t : stamped)
    (who : context) :
  step l e g = Some (t, g') ->
  (forall p sg, In (who, Kill p sg) t ->
     p = m_child_pid (sess g) /\
     (who = Caller /\ 0 < p \/
      who = Worker Forwarder /\ forwarder g = F_kill sg)) /\
  (forall p, In (who, Waitpid p) t ->
     who = Caller /\ p = m_child_pid (sess g) /\ 0 < p) /\
  (forall d data, In (who, Write_ d data) t ->
     who = Caller /\ d = m_master_fd (sess g) /\ 0 <= d) /\
  (forall d c r, In (who, Ioctl_winsz d c r) t ->
     who = Caller /\ d = m_master_fd (sess g) /\ 0 <= d) /\
  (forall d, In (who, Close d) t ->
     who = Caller /\ d = m_master_fd (sess g) /\ 0 <= d).
Proof.
  intros Hstep.
  destruct g as [[cb run pid fd rt st c r rp ai] mp [rpc pfd] f].
  destruct l as [[callback| |command|cols rows]| | | |].
  1-5: destruct mp; simpl in Hstep; try discriminate.
  all: simpl in Hstep; step_cases Hstep.
  all: (split; [intros p0 sg Hin
       |split; [intros p0 Hin
       |split; [intros d data Hin
       |split; [intros d c0 r0 Hin | intros d Hin]]]]); hunt Hin.
  all: injection Hin as <-; try subst; simpl;
    repeat split; try reflexivity; try lia.
  all: first [left; split; [reflexivity | lia] | right; split; reflexivity].
Qed.

Lemma calls_are_guarded_witness :
  100 = m_child_pid (sess g_reader_in_loop) /\
  (Caller = Caller /\ 0 < 100 \/
   Caller = Worker Forwarder /\ forwarder g_reader_in_loop = F_kill SIGWINCH).
Proof.
  apply (proj1 (calls_are_guarded (L_call (C_resize 120 40)) env_ok
                  g_reader_in_loop
                  (mkGlobal (set_rows 40 (set_cols 120 session_up)) M_idle
                     (mkReader R_poll 5) F_init)
                  [(Caller, Ioctl_winsz 5 120 40); (Caller, Kill 100 SIGWINCH)]
                  Caller eq_refl) 100 SIGWINCH).
  simpl. right. left. reflexivity.
Defined.

(** ** The reader under any interleaving *)

Lemma quiet_step (l : label) (e : Env) (g g' : Global) (t : stamped) :
  m_running (sess g) = false -> main g <> M_start ->
  (forall callback, l <> L_call (C_start callback)) ->
  step l e g = Some (t, g') ->
  m_running (sess g') = false /\ main g' <> M_start /\
  (reader_rank (r_pc (reader g')) <= reader_rank (r_pc (reader g)))%nat /\
  (l = L_reader ->
   (S (reader_rank (r_pc (reader g'))) <= reader_rank (r_pc (reader g)))%nat).
Proof.
  intros Hrun Hm Hl Hstep.
  destruct l as [[callback| |command|cols rows]| | | |].
  - exfalso. exact (Hl callback eq_refl).
  - destruct g as [[cb run pid fd rt st c r rp ai] mp [rpc pfd] f].
    simpl in Hrun. subst run.
    destruct mp; simpl in Hstep; try discriminate; step_cases Hstep; simpl;
      repeat split; try discriminate; try lia.
  - destruct g as [[cb run pid fd rt st c r rp ai] mp [rpc pfd] f].
    simpl in Hrun. subst run.
    destruct mp; simpl in Hstep; try discriminate; step_cases Hstep; simpl;
      repeat split; try discriminate; try lia.
  - destruct g as [[cb run pid fd rt st c r rp ai] mp [rpc pfd] f].
    simpl in Hrun. subst run.
    destruct mp; simpl in Hstep; try discriminate; step_cases Hstep; simpl;
      repeat split; try discriminate; try lia.
  - destruct g as [[cb run pid fd rt st c r rp ai] mp [rpc pfd] f].
    simpl in Hrun, Hm. subst run.
    destruct mp; simpl in Hstep; try discriminate; try congruence;
      step_cases Hstep; simpl; repeat split; try discriminate; try lia.
  - pose proof (reader_progress e g Hrun) as Hp. rewrite Hstep in Hp.
    destruct Hp as (Hrank & Hrun' & Hmain).
    repeat split; try assumption; try congruence; try lia.
  - destruct g as [[cb run pid fd rt st c r rp ai] mp [rpc pfd] f].
    simpl in Hrun, Hm. subst run.
    destruct f; simpl in Hstep; step_cases Hstep; simpl;
      repeat split; try assumption; try discriminate; try lia.
  - destruct g as [[cb run pid fd rt st c r rp ai] mp [rpc pfd] f].
    simpl in Hrun, Hm. subst run.
    simpl in Hstep; step_cases Hstep; simpl;
      repeat split; try assumption; try discriminate; try lia.
Qed.

(** X24.  Under any interleaving: from a state with the running flag clear
    and no [StartShell] in progress, along every schedule that does not call
    [StartShell] the flag stays clear and the reader takes at most as many
    further steps as its position allows - at most five in all.  The join of
    the reader in [StopShell] is therefore never kept waiting by the reader
    loop. *)
Theorem reader_moves_bounded (sch : schedule) :
  forall (g g' : Global) (t : stamped),
    m_running (sess g) = false -> main g <> M_start -> no_start sch = true ->
    run sch g = Some (t, g') ->
    m_running (sess g') = false /\
    (reader_moves sch + reader_rank (r_pc (reader g'))
       <= reader_rank (r_pc (reader g)))%nat /\
    (reader_moves sch <= 5)%nat.
Proof.
  induction sch as [|[l e] rest IH]; intros g g' t Hrun Hm Hns Hsch.
  - simpl in Hsch. injection Hsch as _ <-. simpl.
    repeat split; [assumption | lia | lia].
  - simpl in Hsch.
    destruct (step l e g) as [[t1 g1]|] eqn:Hstep; [|discriminate].
    destruct (run rest g1) as [[t2 g2]|] eqn:Hrest; [|discriminate].
    injection Hsch as _ <-.
    assert (Hl : forall callback, l <> L_call (C_start callback)).
    { intros callback ->. simpl in Hns. discriminate. }
    assert (Hns' : no_start rest = true).
    { destruct l as [[callback| |command|cols rows]| | | |];
        simpl in Hns; try assumption. discriminate. }
    destruct (quiet_step l e g g1 t1 Hrun Hm Hl Hstep)
      as (Hrun1 & Hm1 & Hle & Hlt).
    destruct (IH g1 g2 t2 Hrun1 Hm1 Hns' Hrest) as (Hrun2 & Hsum & _).
    assert (Hr : (reader_rank (r_pc (reader g)) <= 5)%nat)
      by (destruct (r_pc (reader g)); simpl; lia).
    assert (Hmoves : (reader_moves ((l, e) :: rest)
                      + reader_rank (r_pc (reader g2))
                      <= reader_rank (r_pc (reader g)))%nat).
    { destruct l as [[callback| |command|cols rows]| | | |];
        cbn [reader_moves]; try lia.
      specialize (Hlt eq_refl). lia. }
    repeat split; [assumption | assumption | lia].
Qed.

Lemma reader_moves_bounded_witness :
  m_running (sess (mkGlobal (sess g_after_close) M_stop_join_reader
                     (mkReader R_exit 5) F_init)) = false /\
  (reader_moves [(L_reader, env_poll 1 0 POLLNVAL)]
     + reader_rank (r_pc (reader (mkGlobal (sess g_after_close)
                                    M_stop_join_reader (mkReader R_exit 5)
                                    F_init)))
     <= reader_rank (r_pc (reader g_after_close)))%nat /\
  (reader_moves [(L_reader, env_poll 1 0 POLLNVAL)] <= 5)%nat.
Proof.
  apply (reader_moves_bounded [(L_reader, env_poll 1 0 POLLNVAL)]
           g_after_close
           (mkGlobal (sess g_after_close) M_stop_join_reader
              (mkReader R_exit 5) F_init)
           [(Worker Reader, Poll 5 150)]);
    [reflexivity | discriminate | reflexivity | reflexivity].
Defined.
